(** * Order scheduler and session registry: a shallow embedding

    The development follows the Python sources
    [backend/database.py] (the order store), [backend/order_queue.py]
    (the dispatcher), [backend/services/browser_service.py] (the session
    registry), [backend/app.py] (one route) and the two automation agents.

    Conventions.
    - A [datetime] is an integer number of microseconds since the epoch,
      the resolution of Python's [datetime]; [total_seconds] turns a
      difference of two of them into a rational number of seconds.
    - A table is the list of its rows; a query keeps the rows in table
      order, and a stable sort decides among rows with equal sort keys.
    - Python dictionaries keyed by strings are [gmap string _]. *)

From Stdlib Require Import ZArith List Lia QArith Qcanon Sorted.
From stdpp Require Import base option list strings gmap.

Local Open Scope Z_scope.

Definition datetime := Z.

(** [timedelta.total_seconds()] of a difference given in microseconds. *)
Definition total_seconds (delta : Z) : Qc := Q2Qc (delta # 1000000).

(** ** database.py *)

Module Database.

Inductive OrderStatus :=
  | PENDING | PROCESSING | COMPLETED | FAILED | CANCELLED
  | REQUIRES_HUMAN | MANUAL_CONTROL.

Inductive OrderPriority := LOW | NORMAL | HIGH | URGENT.

Definition OrderStatus_eqb (a b : OrderStatus) : bool :=
  match a, b with
  | PENDING, PENDING | PROCESSING, PROCESSING | COMPLETED, COMPLETED
  | FAILED, FAILED | CANCELLED, CANCELLED
  | REQUIRES_HUMAN, REQUIRES_HUMAN | MANUAL_CONTROL, MANUAL_CONTROL => true
  | _, _ => false
  end.

(** [OrderStatus.value] *)
Definition status_value (s : OrderStatus) : string :=
  match s with
  | PENDING => "pending" | PROCESSING => "processing"
  | COMPLETED => "completed" | FAILED => "failed"
  | CANCELLED => "cancelled" | REQUIRES_HUMAN => "requires_human"
  | MANUAL_CONTROL => "manual_control"
  end.

(** [OrderPriority.value] *)
Definition priority_value (p : OrderPriority) : Z :=
  match p with LOW => 1 | NORMAL => 2 | HIGH => 3 | URGENT => 4 end.

(** The columns of [OrderModel] that the modelled operations read or
    write. *)
Record OrderModel := mkOrder {
  id : string;
  status : OrderStatus;
  priority : OrderPriority;
  created_at : datetime;
  updated_at : datetime;
  started_at : option datetime;
  completed_at : option datetime;
  progress : option Z;
  current_step : option string;
  order_confirmation_number : option string;
  tracking_number : option string;
  estimated_delivery : option datetime;
  error_message : option string;
  requires_human_review : option bool;
  session_id : option string
}.

Abbreviation table := (list OrderModel).

(** [value if value is not None else old] *)
Definition if_given {A} (new old : option A) : option A :=
  match new with Some v => Some v | None => old end.

(** *** Queries *)

(** [.filter(OrderModel.id == order_id).first()] *)
Definition get_order (t : table) (order_id : string) : option OrderModel :=
  find (fun o => String.eqb (id o) order_id) t.

(** [.filter(OrderModel.status == OrderStatus.PENDING.value)] *)
Definition is_pending (o : OrderModel) : bool := OrderStatus_eqb (status o) PENDING.

(** [order_by(priority.desc(), created_at.asc())]: [goes_before a b] when
    row [a] may stand before row [b] in the result. *)
Definition goes_before (a b : OrderModel) : bool :=
  (priority_value (priority b) <? priority_value (priority a))
  || ((priority_value (priority a) =? priority_value (priority b))
      && (created_at a <=? created_at b)).

Fixpoint insert_row (o : OrderModel) (sorted : list OrderModel) : list OrderModel :=
  match sorted with
  | [] => [o]
  | x :: rest => if goes_before o x then o :: x :: rest else x :: insert_row o rest
  end.

(** A stable sort: rows with equal keys keep their table order. *)
Definition order_by (rows : list OrderModel) : list OrderModel :=
  foldr insert_row [] rows.

(** The rows a flush updates: [UPDATE orders SET ... WHERE orders.id = ?]. *)
Definition update_where_id (order_id : string) (f : OrderModel -> OrderModel)
    (t : table) : table :=
  (fun o => if String.eqb (id o) order_id then f o else o) <$> t.

(** The three assignments of [get_next_order]. *)
Definition claim (now : datetime) (o : OrderModel) : OrderModel :=
  mkOrder (id o) PROCESSING (priority o) (created_at o) now (Some now)
    (completed_at o) (progress o) (current_step o)
    (order_confirmation_number o) (tracking_number o) (estimated_delivery o)
    (error_message o) (requires_human_review o) (session_id o).

(** [DatabaseManager.get_next_order]: the claimed order, if any, and the
    table after the commit. *)
Definition get_next_order (now : datetime) (t : table) : option OrderModel * table :=
  match head (order_by (filter is_pending t)) with
  | Some order_model =>
      (Some (claim now order_model), update_where_id (id order_model) (claim now) t)
  | None => (None, t)
  end.

(** The two halves of [get_next_order], for calls that overlap. The
    query first: [with_for_update(skip_locked=True)] locks the row on
    PostgreSQL only; the default store is SQLite, where, as the source
    notes, it is ignored, so a second query may run before the first
    call commits and reads the same rows. *)
Definition select_next_pending (t : table) : option OrderModel :=
  head (order_by (filter is_pending t)).

(** The flush and commit: [UPDATE orders SET status, updated_at,
    started_at WHERE orders.id = ?], whatever the status of the row has
    become in between; the order returned is read from the updated row. *)
Definition commit_claim (now : datetime) (order_model : OrderModel) (t : table)
    : option OrderModel * table :=
  (head (filter (fun o => String.eqb (id o) (id order_model))
           (update_where_id (id order_model) (claim now) t)),
   update_where_id (id order_model) (claim now) t).

(** Two calls on a store without row locks, the second query running
    before the first commit: what each returns, and the table left. *)
Definition overlapping_get_next_order (now1 now2 : datetime) (t : table)
    : option OrderModel * option OrderModel * table :=
  let first_query := select_next_pending t in
  let second_query := select_next_pending t in
  let '(first_result, t1) :=
    match first_query with
    | Some order_model => commit_claim now1 order_model t
    | None => (None, t)
    end in
  let '(second_result, t2) :=
    match second_query with
    | Some order_model => commit_claim now2 order_model t1
    | None => (None, t1)
    end in
  (first_result, second_result, t2).

Definition is_Some_b {A} (x : option A) : bool :=
  match x with Some _ => true | None => false end.

Definition is_terminal (s : OrderStatus) : bool :=
  match s with COMPLETED | FAILED | CANCELLED => true | _ => false end.

(** The optional arguments of [update_order_status]. *)
Record StatusFields := mkFields {
  f_progress : option Z;
  f_current_step : option string;
  f_order_confirmation_number : option string;
  f_tracking_number : option string;
  f_estimated_delivery : option datetime;
  f_error_message : option string;
  f_requires_human_review : option bool;
  f_session_id : option string
}.

Definition no_fields : StatusFields :=
  mkFields None None None None None None None None.

(** [status == OrderStatus.PROCESSING and not order_model.started_at] *)
Definition first_start (new_status : OrderStatus) (o : OrderModel) : bool :=
  OrderStatus_eqb new_status PROCESSING && negb (is_Some_b (started_at o)).

(** The assignments [update_order_status] makes on the row it found. *)
Definition apply_status (now : datetime) (new_status : OrderStatus)
    (fs : StatusFields) (o : OrderModel) : OrderModel :=
  mkOrder (id o) new_status (priority o) (created_at o) now
    (if first_start new_status o then Some now else started_at o)
    (if first_start new_status o then completed_at o
     else if is_terminal new_status then Some now else completed_at o)
    (if_given (f_progress fs) (progress o))
    (if_given (f_current_step fs) (current_step o))
    (if_given (f_order_confirmation_number fs) (order_confirmation_number o))
    (if_given (f_tracking_number fs) (tracking_number o))
    (if_given (f_estimated_delivery fs) (estimated_delivery o))
    (if_given (f_error_message fs) (error_message o))
    (if_given (f_requires_human_review fs) (requires_human_review o))
    (if_given (f_session_id fs) (session_id o)).

(** [DatabaseManager.update_order_status]; [None] is the [ValueError]
    raised when no order has that id. *)
Definition update_order_status (now : datetime) (order_id : string)
    (new_status : OrderStatus) (fs : StatusFields) (t : table) : option table :=
  match get_order t order_id with
  | None => None
  | Some _ => Some (update_where_id order_id (apply_status now new_status fs) t)
  end.

(** [DatabaseManager.cancel_order]: a bulk update of the rows with that id
    that are still pending; returns [result > 0]. *)
Definition cancel_matches (order_id : string) (o : OrderModel) : bool :=
  String.eqb (id o) order_id && OrderStatus_eqb (status o) PENDING.

Definition cancel_row (now : datetime) (o : OrderModel) : OrderModel :=
  mkOrder (id o) CANCELLED (priority o) (created_at o) now (started_at o)
    (completed_at o) (progress o) (current_step o)
    (order_confirmation_number o) (tracking_number o) (estimated_delivery o)
    (error_message o) (requires_human_review o) (session_id o).

Definition cancel_order (now : datetime) (order_id : string) (t : table) : bool * table :=
  (0 <? Z.of_nat (length (filter (cancel_matches order_id) t)),
   (fun o => if cancel_matches order_id o then cancel_row now o else o) <$> t).

(** *** get_order_stats: average processing time and success rate *)

Definition Z2Qc (z : Z) : Qc := Q2Qc (inject_Z z).

Definition has_status (s : OrderStatus) (o : OrderModel) : bool :=
  OrderStatus_eqb (status o) s.

(** [stats[s.value]]: the number of rows with status [s]. *)
Definition status_count (s : OrderStatus) (t : table) : Z :=
  Z.of_nat (length (filter (has_status s) t)).

(** The query for [(started_at, completed_at)] of completed orders with
    both columns set. *)
Definition completed_orders_with_times (t : table) : list (datetime * datetime) :=
  omap (fun o =>
          if has_status COMPLETED o then
            match started_at o, completed_at o with
            | Some s, Some c => Some (s, c)
            | _, _ => None
            end
          else None) t.

(** [0 < duration <= 7200] *)
Definition in_window (duration : Qc) : bool :=
  bool_decide (0 < duration)%Qc && bool_decide (duration <= Z2Qc 7200)%Qc.

(** One turn of the loop over [completed_orders_with_times], on the pair
    [(total_time, valid_orders)]. *)
Definition add_duration (acc : Qc * Z) (row : datetime * datetime) : Qc * Z :=
  let '(total_time, valid_orders) := acc in
  let '(started, completed) := row in
  if started <? completed then
    let duration := total_seconds (completed - started) in
    if in_window duration then ((total_time + duration)%Qc, valid_orders + 1)
    else acc
  else acc.

(** The local [avg_time] of [get_order_stats]; the reported
    ["avg_processing_time"] is [round(avg_time, 2)]. *)
Definition avg_time (t : table) : Qc :=
  match completed_orders_with_times t with
  | [] => 0%Qc
  | rows =>
      let '(total_time, valid_orders) := foldl add_duration (0%Qc, 0) rows in
      if 0 <? valid_orders then (total_time / Z2Qc valid_orders)%Qc else 0%Qc
  end.

(** [stats["success_rate"]] *)
Definition success_rate (t : table) : Qc :=
  let completed := status_count COMPLETED t in
  let total_finished := completed + status_count FAILED t in
  if 0 <? total_finished
  then (Z2Qc completed / Z2Qc total_finished * Z2Qc 100)%Qc
  else 0%Qc.

(** *** The average, stated over the orders it counts *)

(** The average as the specification words it: over the completed orders
    that have both timestamps and whose duration lies in (0, 7200]. *)
Definition counted_duration (o : OrderModel) : option Qc :=
  if has_status COMPLETED o then
    match started_at o, completed_at o with
    | Some s, Some c =>
        let d := total_seconds (c - s) in
        if in_window d then Some d else None
    | _, _ => None
    end
  else None.

Definition counted_durations (t : table) : list Qc := omap counted_duration t.

Definition sum_Qc (l : list Qc) : Qc := foldr Qcplus 0%Qc l.

Definition stated_average (t : table) : Qc :=
  match counted_durations t with
  | [] => 0%Qc
  | ds => (sum_Qc ds / Z2Qc (Z.of_nat (length ds)))%Qc
  end.

(** The duration a row of [completed_orders_with_times] adds, if any. *)
Definition row_duration (row : datetime * datetime) : option Qc :=
  let d := total_seconds (row.2 - row.1) in
  if in_window d then Some d else None.

End Database.

(** ** order_queue.py *)

Module OrderQueue.

Import Database.

Inductive QueueStatus := RUNNING | PAUSED | STOPPED.

Definition QueueStatus_eqb (a b : QueueStatus) : bool :=
  match a, b with
  | RUNNING, RUNNING | PAUSED, PAUSED | STOPPED, STOPPED => true
  | _, _ => false
  end.

(** An [asyncio.Task] as far as [done()] and [cancel()] see it. *)
Inductive Task := TaskRunning | TaskFinished | TaskCancelled.

Definition done (task : Task) : bool :=
  match task with TaskRunning => false | _ => true end.

Record OrderQueue := mkQueue {
  db_manager : table;
  status : QueueStatus;
  processing_orders : gmap string Task;
  max_concurrent : Z;
  shutdown_event : bool;
  paused : bool
}.

(** [OrderQueue.__init__] once the settings gave [max_concurrent]. *)
Definition init (db : table) (max_concurrent : Z) : OrderQueue :=
  mkQueue db STOPPED ∅ max_concurrent false false.

(** [self.status == RUNNING and len(self.processing_orders) < self.max_concurrent] *)
Definition can_dispatch (q : OrderQueue) : bool :=
  QueueStatus_eqb (status q) RUNNING
  && (Z.of_nat (size (processing_orders q)) <? max_concurrent q).

(** The first half of one turn of [_process_queue], up to the sleep or
    the task creation. *)
Definition dispatch (now : datetime) (q : OrderQueue) : OrderQueue :=
  if can_dispatch q then
    match get_next_order now (db_manager q) with
    | (Some order, db') =>
        mkQueue db' (status q) (<[id order := TaskRunning]> (processing_orders q))
          (max_concurrent q) (shutdown_event q) (paused q)
    | (None, _) => q
    end
  else q.

(** How [_cleanup_completed_tasks] ends. *)
Inductive SweepOutcome := Swept | RaisedCancelledError.

Definition not_cancelled (task : Task) : bool :=
  match task with TaskCancelled => false | _ => true end.

(** [_cleanup_completed_tasks]. Every done task is awaited before any
    entry is deleted. Awaiting a task that ended by cancellation raises
    [CancelledError], which [except Exception] does not catch: the method
    is left with nothing deleted, and [_process_queue] ends in its
    [except asyncio.CancelledError] arm. Otherwise the entries whose task
    is done leave the map. *)
Definition _cleanup_completed_tasks (q : OrderQueue) : OrderQueue * SweepOutcome :=
  if forallb (fun kv : string * Task => not_cancelled kv.2)
       (map_to_list (processing_orders q))
  then (mkQueue (db_manager q) (status q)
          (filter (fun kv => done kv.2 = false) (processing_orders q))
          (max_concurrent q) (shutdown_event q) (paused q),
        Swept)
  else (q, RaisedCancelledError).

Definition start (q : OrderQueue) : OrderQueue :=
  if QueueStatus_eqb (status q) RUNNING then q
  else mkQueue (db_manager q) RUNNING (processing_orders q) (max_concurrent q)
         false (paused q).

(** [stop]: every task is cancelled and awaited, then its entry deleted. *)
Definition stop (q : OrderQueue) : OrderQueue :=
  if QueueStatus_eqb (status q) STOPPED then q
  else mkQueue (db_manager q) STOPPED ∅ (max_concurrent q) true (paused q).

Definition pause (q : OrderQueue) : OrderQueue :=
  if QueueStatus_eqb (status q) RUNNING
  then mkQueue (db_manager q) PAUSED (processing_orders q) (max_concurrent q)
         (shutdown_event q) true
  else q.

Definition resume (q : OrderQueue) : OrderQueue :=
  if QueueStatus_eqb (status q) PAUSED
  then mkQueue (db_manager q) RUNNING (processing_orders q) (max_concurrent q)
         (shutdown_event q) false
  else q.

(** What [cancel_order] does to the outside, in order. *)
Inductive Event :=
  | TaskCancel (order_id : string)
  | TaskAwait (order_id : string)
  | StoreCancel (order_id : string).

(** [OrderQueue.cancel_order]. The awaited coroutine is [_process_order],
    which catches every [Exception] at its boundary, so the await ends by
    [CancelledError] (caught here) or by a normal return. *)
Definition cancel_order (now : datetime) (order_id : string) (q : OrderQueue)
    : bool * OrderQueue * list Event :=
  let '(events, tasks) :=
    match processing_orders q !! order_id with
    | Some task =>
        (if done task then [] else [TaskCancel order_id; TaskAwait order_id],
         delete order_id (processing_orders q))
    | None => ([], processing_orders q)
    end in
  let '(result, db') := Database.cancel_order now order_id (db_manager q) in
  (result,
   mkQueue db' (status q) tasks (max_concurrent q) (shutdown_event q) (paused q),
   events ++ [StoreCancel order_id]).

(** A per-order task reaches its end. *)
Definition task_finishes (order_id : string) (q : OrderQueue) : OrderQueue :=
  mkQueue (db_manager q) (status q)
    (alter (fun task => if done task then task else TaskFinished) order_id
       (processing_orders q))
    (max_concurrent q) (shutdown_event q) (paused q).

(** A per-order task ends by cancellation while its entry is still in
    the map, as when the force-delete route of [app.py] cancels it. *)
Definition task_cancelled (order_id : string) (q : OrderQueue) : OrderQueue :=
  mkQueue (db_manager q) (status q)
    (alter (fun task => if done task then task else TaskCancelled) order_id
       (processing_orders q))
    (max_concurrent q) (shutdown_event q) (paused q).

(** [del order_queue.processing_orders[order_id]] of the force-delete
    route. *)
Definition force_remove (order_id : string) (q : OrderQueue) : OrderQueue :=
  mkQueue (db_manager q) (status q) (delete order_id (processing_orders q))
    (max_concurrent q) (shutdown_event q) (paused q).

(** [OrderQueue.update_settings]: the settings are stored and
    [_load_queue_settings] runs again, which leaves on the queue whatever
    [max_concurrent_orders] the configuration now holds, unchecked. *)
Definition update_settings (max_concurrent_orders : Z) (q : OrderQueue) : OrderQueue :=
  mkQueue (db_manager q) (status q) (processing_orders q) max_concurrent_orders
    (shutdown_event q) (paused q).

(** What can happen to a queue: the two halves of a turn of the dispatch
    loop, and the calls and task endings that interleave with them at
    its await points. The relation does not record whether the
    dispatcher is still alive; a dispatcher that has ended only takes
    steps away. *)
Inductive step : OrderQueue -> OrderQueue -> Prop :=
  | step_dispatch now q :
      shutdown_event q = false -> step q (dispatch now q)
  | step_cleanup q : step q (_cleanup_completed_tasks q).1
  | step_task_finishes order_id q : step q (task_finishes order_id q)
  | step_task_cancelled order_id q : step q (task_cancelled order_id q)
  | step_cancel now order_id q : step q (cancel_order now order_id q).1.2
  | step_force_remove order_id q : step q (force_remove order_id q)
  | step_update_settings max_concurrent_orders q :
      step q (update_settings max_concurrent_orders q)
  | step_pause q : step q (pause q)
  | step_resume q : step q (resume q)
  | step_start q : step q (start q)
  | step_stop q : step q (stop q).

Inductive steps : OrderQueue -> OrderQueue -> Prop :=
  | steps_refl q : steps q q
  | steps_step q1 q2 q3 : steps q1 q2 -> step q2 q3 -> steps q1 q3.


(** The bound on the active-task map. *)
Definition within_capacity (q : OrderQueue) : Prop :=
  Z.of_nat (size (processing_orders q)) ≤ max_concurrent q.

End OrderQueue.

(** ** agents/nova_act_agent.py, agents/strands_agent.py *)

Module Agents.

Inductive AgentKind := NovaActAgent | StrandsAgent.

Definition automation_method (k : AgentKind) : string :=
  match k with NovaActAgent => "nova_act" | StrandsAgent => "strands" end.

(** The result dictionary of [process_order]. *)
Record Result := mkResult {
  success : bool;
  r_status : string;
  error : option string;
  r_automation_method : string
}.

(** An agent instance: its [_is_processing] flag, and two counters kept
    for the proofs: the [process_order] calls that are past the guard and
    have not reached their [finally], and the automation runs begun. *)
Record Agent := mkAgent {
  kind : AgentKind;
  _is_processing : bool;
  active_calls : nat;
  automation_runs : nat
}.

Definition new_agent (k : AgentKind) : Agent := mkAgent k false 0 0.

(** The guard at the head of [process_order]: a rejection, or the flag is
    set and the body begins. *)
Definition process_order_enter (a : Agent) : Agent * option Result :=
  if _is_processing a then
    (a, Some (mkResult false "failed" (Some "Another order is already being processed")
                (automation_method (kind a))))
  else
    (mkAgent (kind a) true (S (active_calls a)) (S (automation_runs a)), None).

(** The [finally] of [process_order]. *)
Definition process_order_exit (a : Agent) : Agent :=
  mkAgent (kind a) false (pred (active_calls a)) (automation_runs a).

(** The calls of [process_order] on one instance, interleaved at their
    await points. *)
Inductive step : Agent -> Agent -> Prop :=
  | step_enter a : step a (process_order_enter a).1
  | step_exit a : (0 < active_calls a)%nat -> step a (process_order_exit a).

Inductive steps : Agent -> Agent -> Prop :=
  | steps_refl a : steps a a
  | steps_step a1 a2 a3 : steps a1 a2 -> step a2 a3 -> steps a1 a3.

(** The flag is set exactly while one call is past the guard. *)
Definition guarded (a : Agent) : Prop :=
  (_is_processing a = true ∧ active_calls a = 1%nat)
  ∨ (_is_processing a = false ∧ active_calls a = 0%nat).

End Agents.

(** ** services/browser_service.py *)

Module BrowserService.

Import Database.

(** How a teardown call on an external resource ends. *)
Inductive CallOutcome := Returns | Raises | NeverReturns.

(** How any other call on the client ends. *)
Inductive PlainCall := CallReturns | CallRaises.

(** How a call that yields a URL ends. *)
Inductive UrlCall := UrlReturns (url : option string) | UrlRaises.

(** The browser client, duck-typed in the source: a field is [None] when
    the object has no such attribute ([hasattr] is false), and otherwise
    tells how the call ends. [generate_ws_headers] is kept by the
    [ws_url] of the pair it returns. *)
Record BrowserClient := mkClient {
  stop : option CallOutcome;
  set_viewport_size : option PlainCall;
  generate_live_view_url : option UrlCall;
  client_get_live_view_url : option UrlCall;
  generate_ws_headers : option UrlCall
}.

(** The dataclass [BrowserSession]; [playwright] and [browser] are kept
    by the outcome of [playwright.stop()] and [browser.close()]. *)
Record BrowserSession := mkSession {
  session_id : string;
  order_id : string;
  browser_id : string;
  browser_client : option BrowserClient;
  status : string;
  created_at : datetime;
  last_accessed : datetime;
  resolution : Z * Z;
  manual_control : bool;
  current_url : string;
  playwright : option CallOutcome;
  browser : option CallOutcome
}.

(** The order store as the registry sees it: [get_order] raises when the
    store cannot be reached. *)
Record DatabaseManager := mkDb {
  orders : table;
  reachable : bool
}.

Inductive Raising (A : Type) := Value (a : A) | Raised.
Arguments Value {A} a.
Arguments Raised {A}.

Definition db_get_order (db : DatabaseManager) (order_id : string)
    : Raising (option OrderModel) :=
  if reachable db then Value (get_order (orders db) order_id) else Raised.

Record BrowserService := mkService {
  db_manager : option DatabaseManager;
  active_sessions : gmap string BrowserSession;
  active_clients : gmap string BrowserClient
}.

Definition set_status (new_status : string) (s : BrowserSession) : BrowserSession :=
  mkSession (session_id s) (order_id s) (browser_id s) (browser_client s)
    new_status (created_at s) (last_accessed s) (resolution s)
    (manual_control s) (current_url s) (playwright s) (browser s).

Definition set_last_accessed (now : datetime) (s : BrowserSession) : BrowserSession :=
  mkSession (session_id s) (order_id s) (browser_id s) (browser_client s)
    (status s) (created_at s) now (resolution s)
    (manual_control s) (current_url s) (playwright s) (browser s).

Definition set_resolution (width height : Z) (now : datetime) (s : BrowserSession)
    : BrowserSession :=
  mkSession (session_id s) (order_id s) (browser_id s) (browser_client s)
    (status s) (created_at s) now (width, height)
    (manual_control s) (current_url s) (playwright s) (browser s).

(** *** cleanup_session *)

(** [order and order.status.value == "requires_human"], with the
    [except] around the lookup: a store that raises protects nothing. *)
Definition is_protected (bs : BrowserService) (sid : string) : bool :=
  match db_manager bs with
  | Some db =>
      match db_get_order db sid with
      | Value (Some order) => OrderStatus_eqb (Database.status order) REQUIRES_HUMAN
      | _ => false
      end
  | None => false
  end.

(** The calls made on the resources of a session. *)
Inductive ResourceCall :=
  | BrowserClose (sid : string)
  | PlaywrightStop (sid : string)
  | ClientStop (sid : string).

(** The session a call was made for. *)
Definition call_sid (c : ResourceCall) : string :=
  match c with BrowserClose sid | PlaywrightStop sid | ClientStop sid => sid end.

Inductive CleanupError :=
  | PlaywrightCleanupError
  | BrowserClientCleanup
  | SessionRemoval
  | ClientCleanup
  | LockError.

(** [cleanup_playwright]: each of the two awaits sits under
    [asyncio.wait_for(..., timeout=3.0)] and in a [try] of its own, so
    whichever way a call ends the coroutine goes on. *)
Definition cleanup_playwright (sid : string) (s : BrowserSession) : list ResourceCall :=
  (if is_Some_b (browser s) then [BrowserClose sid] else [])
  ++ (if is_Some_b (playwright s) then [PlaywrightStop sid] else []).

(** What [cleanup_session] leaves behind. The Python method returns
    nothing; the model reports the registry, whether the call came back,
    the list [cleanup_errors], the calls made on resources, and the
    session object as the method left it (it outlives its map entry). *)
Record CleanupResult := mkCleanup {
  service : BrowserService;
  returned : bool;
  cleanup_errors : list CleanupError;
  calls : list ResourceCall;
  handle : option BrowserSession
}.

(** The body under [with self.session_lock]. [in_event_loop] tells
    whether the calling thread already runs an event loop, in which case
    [asyncio.run] raises before the coroutine starts. *)
Definition locked_cleanup (in_event_loop : bool) (sid : string) (bs : BrowserService)
    : CleanupResult :=
  match active_sessions bs !! sid with
  | Some session =>
      let errors1 := if in_event_loop then [PlaywrightCleanupError] else [] in
      let calls1 := if in_event_loop then [] else cleanup_playwright sid session in
      let finish (errors : list CleanupError) (calls2 : list ResourceCall)
                 (session' : BrowserSession) :=
        mkCleanup
          (mkService (db_manager bs) (delete sid (active_sessions bs))
             (delete sid (active_clients bs)))
          true errors (calls1 ++ calls2) (Some session') in
      match browser_client session with
      | Some client =>
          match stop client with
          | Some Returns =>
              finish errors1 [ClientStop sid] (set_status "terminated" session)
          | Some Raises =>
              finish (errors1 ++ [BrowserClientCleanup]) [ClientStop sid] session
          | Some NeverReturns =>
              mkCleanup bs false errors1 (calls1 ++ [ClientStop sid]) (Some session)
          | None => finish errors1 [] (set_status "terminated" session)
          end
      | None => finish errors1 [] (set_status "terminated" session)
      end
  | None =>
      mkCleanup
        (mkService (db_manager bs) (active_sessions bs) (delete sid (active_clients bs)))
        true [] [] None
  end.

(** [BrowserService.cleanup_session] *)
Definition cleanup_session (in_event_loop : bool) (sid : string) (force : bool)
    (bs : BrowserService) : CleanupResult :=
  if negb force && is_protected bs sid
  then mkCleanup bs true [] [] None
  else locked_cleanup in_event_loop sid bs.

(** *** cleanup_expired_sessions *)

(** [(now - session.last_accessed).total_seconds() > 1800] *)
Definition idle_too_long (now : datetime) (s : BrowserSession) : bool :=
  bool_decide (Z2Qc 1800 < total_seconds (now - last_accessed s))%Qc.

Definition expired_sessions (now : datetime) (bs : BrowserService) : list string :=
  omap (fun kv : string * BrowserSession =>
          if negb (is_protected bs kv.1) && idle_too_long now kv.2
          then Some kv.1 else None)
       (map_to_list (active_sessions bs)).

Record SweepResult := mkSweep {
  sw_service : BrowserService;
  sw_returned : bool;
  sw_calls : list ResourceCall
}.

(** The loop [for session_id in expired_sessions: self.cleanup_session(session_id)];
    a cleanup that does not return stops it. *)
Fixpoint cleanup_each (in_event_loop : bool) (sids : list string) (bs : BrowserService)
    : SweepResult :=
  match sids with
  | [] => mkSweep bs true []
  | sid :: rest =>
      let r := cleanup_session in_event_loop sid false bs in
      if returned r then
        let r' := cleanup_each in_event_loop rest (service r) in
        mkSweep (sw_service r') (sw_returned r') (calls r ++ sw_calls r')
      else mkSweep (service r) false (calls r)
  end.

(** [BrowserService.cleanup_expired_sessions] *)
Definition cleanup_expired_sessions (in_event_loop : bool) (now : datetime)
    (bs : BrowserService) : SweepResult :=
  cleanup_each in_event_loop (expired_sessions now bs) bs.

(** *** get_live_view_url *)

(** Python truthiness of an optional string. *)
Definition truthy (u : option string) : bool :=
  match u with
  | Some s => negb (String.eqb s "")
  | None => false
  end.

(** [str.replace(old, new)] for a non-empty [old]. *)
Fixpoint replace_upto (fuel : nat) (old new s : string) : string :=
  match fuel with
  | O => s
  | S fuel' =>
      match s with
      | EmptyString => EmptyString
      | String c rest =>
          if String.prefix old s
          then new +:+ replace_upto fuel' old new
                        (String.substring (String.length old)
                           (String.length s - String.length old) s)
          else String c (replace_upto fuel' old new rest)
      end
  end.

Definition replace (old new s : string) : string :=
  replace_upto (String.length s) old new s.

(** The three attempts on the browser client, in order. *)
Definition try_generate_live_view_url (client : BrowserClient) : option string :=
  match generate_live_view_url client with
  | Some (UrlReturns u) => u
  | _ => None
  end.

Definition try_get_live_view_url (client : BrowserClient) (live_view_url : option string)
    : option string :=
  if negb (truthy live_view_url) then
    match client_get_live_view_url client with
    | Some (UrlReturns u) => u
    | _ => live_view_url
    end
  else live_view_url.

Definition try_generate_ws_headers (client : BrowserClient) (live_view_url : option string)
    : option string :=
  if negb (truthy live_view_url) then
    match generate_ws_headers client with
    | Some (UrlReturns (Some ws_url)) =>
        if truthy (Some ws_url) && String.prefix "wss://" ws_url
        then Some (replace "/browser" "/live-view" (replace "wss://" "https://" ws_url))
        else live_view_url
    | _ => live_view_url
    end
  else live_view_url.

Definition live_view_url_of (client : option BrowserClient) : option string :=
  match client with
  | Some c =>
      try_generate_ws_headers c (try_get_live_view_url c (try_generate_live_view_url c))
  | None => None
  end.

(** The dictionary [get_live_view_url] returns. *)
Inductive LiveView :=
  | LiveViewUrl (url sid browser_id : string) (expires : Z) (manual_control : bool)
      (resolution : Z * Z) (current_url : string)
  | LiveViewError (error : string) (sid : option string).

Definition live_view_answer (sid : string) (expires : Z) (url : option string)
    (browser_id : string) (manual : bool) (res : Z * Z) (current : string) : LiveView :=
  match url with
  | Some u =>
      if truthy url
      then LiveViewUrl u sid browser_id expires manual res current
      else LiveViewError "Unable to generate live view URL - AgentCore session not active"
             (Some sid)
  | None =>
      LiveViewError "Unable to generate live view URL - AgentCore session not active"
        (Some sid)
  end.

(** [BrowserService.get_live_view_url] *)
Definition get_live_view_url (now : datetime) (sid : string) (expires : Z)
    (bs : BrowserService) : BrowserService * LiveView :=
  match active_sessions bs !! sid with
  | Some session =>
      let session' := set_last_accessed now session in
      (mkService (db_manager bs) (<[sid := session']> (active_sessions bs))
         (active_clients bs),
       live_view_answer sid expires (live_view_url_of (browser_client session'))
         (browser_id session') (manual_control session') (resolution session')
         (current_url session'))
  | None =>
      match active_clients bs !! sid with
      | None => (bs, LiveViewError ("Session " +:+ sid +:+ " not found") None)
      | Some client =>
          (bs,
           live_view_answer sid expires (live_view_url_of (Some client))
             ("browser_" +:+ String.substring 0 8 sid) false (1280, 720) "about:blank")
      end
  end.

(** *** change_browser_resolution *)

Inductive ResolutionResult :=
  | ResolutionChanged (width height : Z)
  | SessionNotFound (sid : string)
  | ResizeFailed.

Definition resolution_success (r : ResolutionResult) : bool :=
  match r with ResolutionChanged _ _ => true | _ => false end.

(** [BrowserService.change_browser_resolution]. The session record is
    updated before the browser client is asked; a client without
    [set_viewport_size] only earns a warning. *)
Definition change_browser_resolution (now : datetime) (sid : string) (width height : Z)
    (bs : BrowserService) : BrowserService * ResolutionResult :=
  match active_sessions bs !! sid with
  | None => (bs, SessionNotFound sid)
  | Some session =>
      let session' := set_resolution width height now session in
      let bs' := mkService (db_manager bs) (<[sid := session']> (active_sessions bs))
                   (active_clients bs) in
      match browser_client session' with
      | Some client =>
          match set_viewport_size client with
          | Some CallRaises => (bs', ResizeFailed)
          | Some CallReturns | None => (bs', ResolutionChanged width height)
          end
      | None => (bs', ResolutionChanged width height)
      end
  end.

End BrowserService.

(** ** app.py: POST /api/orders/{order_id}/change-resolution *)

Module App.

Import BrowserService.

Inductive Response :=
  | Ok (result : ResolutionResult)
  | HTTPException (status_code : Z).

(** The route handler. [request] is the JSON body with its numbers
    already read by [int]; [live_view_importable] tells whether
    [services.live_view_service] can be imported, and [config] whether
    the automation configuration is there. Past the checks the handler
    calls [get_browser_service], a name [app.py] binds in no scope this
    function sees: the [NameError] is caught by [except Exception] and
    answered with 500, the service never being called. *)
Definition change_browser_resolution (live_view_importable config : bool)
    (order_id : string) (request : gmap string Z)
    (bs : BrowserService) : BrowserService * Response :=
  if negb live_view_importable then (bs, HTTPException 500)
  else
    match request !! "width", request !! "height" with
    | Some width, Some height =>
        if (width <? 640) || (3840 <? width) || (height <? 480) || (2160 <? height)
        then (bs, HTTPException 400)
        else if negb config then (bs, HTTPException 500)
        else (bs, HTTPException 500)
    | _, _ => (bs, HTTPException 400)
    end.

End App.

(** ** database.py, further operations *)

Module Store.

Import Database.

(** A stable insertion sort by any "may stand before" test, for the
    other [order_by] clauses. *)
Fixpoint insert_by {A} (before : A -> A -> bool) (x : A) (sorted : list A) : list A :=
  match sorted with
  | [] => [x]
  | y :: rest => if before x y then x :: y :: rest else y :: insert_by before x rest
  end.

Definition sort_by {A} (before : A -> A -> bool) (rows : list A) : list A :=
  foldr (insert_by before) [] rows.

(** The row [create_order] inserts: status pending, the column defaults
    [progress = 0] and [requires_human_review = False], and the two
    timestamps each default evaluates. *)
Definition new_row (new_id : string) (created updated : datetime) (p : OrderPriority)
    : OrderModel :=
  mkOrder new_id PENDING p created updated None None (Some 0) None None None None None
    (Some false) None.

(** [DatabaseManager.create_order]. [new_id] is the [uuid4] the column
    default draws; a primary key already in the table makes the commit
    fail, which is [None]. *)
Definition create_order (new_id : string) (created updated : datetime)
    (p : OrderPriority) (t : table) : option (string * table) :=
  if existsb (fun o => String.eqb (id o) new_id) t then None
  else Some (new_id, t ++ [new_row new_id created updated p]).

(** [order_by(OrderModel.created_at.desc())] *)
Definition newer_first (a b : OrderModel) : bool := created_at b <=? created_at a.

(** [OrderModel.status.in_(status_filter)] *)
Definition status_in (status_filter : list string) (o : OrderModel) : bool :=
  bool_decide (status_value (status o) ∈ status_filter).

(** [DatabaseManager.get_all_orders] with [retailer_filter] left at
    [None]; a filter that is [None] or empty selects every row. *)
Definition get_all_orders (status_filter : option (list string)) (t : table)
    : list OrderModel :=
  sort_by newer_first
    (match status_filter with
     | Some (s :: more) => filter (status_in (s :: more)) t
     | Some [] | None => t
     end).

(** [DatabaseManager.delete_order] *)
Definition delete_order (order_id : string) (t : table) : bool * table :=
  (0 <? Z.of_nat (length (filter (fun o => String.eqb (id o) order_id) t)),
   filter (fun o => negb (String.eqb (id o) order_id)) t).

(** [DatabaseManager.delete_completed_orders]: the number of rows deleted
    and the table left. *)
Definition completed_or_failed (o : OrderModel) : bool :=
  has_status COMPLETED o || has_status FAILED o.

Definition delete_completed_orders (t : table) : Z * table :=
  (Z.of_nat (length (filter completed_or_failed t)),
   filter (fun o => negb (completed_or_failed o)) t).

(** [timedelta(days=days)] in microseconds. *)
Definition timedelta_days (days : Z) : Z := days * 86400000000.

(** The filter of [cleanup_old_orders]; a comparison with a NULL
    [completed_at] selects nothing. *)
Definition old_and_finished (cutoff_date : datetime) (o : OrderModel) : bool :=
  is_terminal (status o)
  && match completed_at o with
     | Some c => c <? cutoff_date
     | None => false
     end.

(** [timedelta(days=days)] raises [OverflowError] beyond 999999999 days
    either way. *)
Definition timedelta_representable (days : Z) : bool :=
  (-999999999 <=? days) && (days <=? 999999999).

(** The range of Python's [datetime]: from 0001-01-01 00:00:00 to
    9999-12-31 23:59:59.999999, in microseconds since the epoch. *)
Definition datetime_min : datetime := -62135596800000000.
Definition datetime_max : datetime := 253402300799999999.

Definition in_datetime_range (d : Z) : bool :=
  (datetime_min <=? d) && (d <=? datetime_max).

(** Whether [datetime.now(timezone.utc) - timedelta(days=days)] has a
    value. *)
Definition cutoff_representable (now : datetime) (days : Z) : bool :=
  timedelta_representable days && in_datetime_range (now - timedelta_days days).

(** [DatabaseManager.cleanup_old_orders]. When the cutoff has no value
    the [OverflowError] is logged and raised again before the table is
    touched: no count is returned ([None]) and the table is left as it
    was. *)
Definition cleanup_old_orders (now : datetime) (days : Z) (t : table)
    : option Z * table :=
  if cutoff_representable now days then
    let cutoff_date := now - timedelta_days days in
    (Some (Z.of_nat (length (filter (old_and_finished cutoff_date) t))),
     filter (fun o => negb (old_and_finished cutoff_date o)) t)
  else (None, t).

(** [for status in OrderStatus] *)
Definition all_statuses : list OrderStatus :=
  [PENDING; PROCESSING; COMPLETED; FAILED; CANCELLED; REQUIRES_HUMAN; MANUAL_CONTROL].

(** [stats["total_orders"]] of [get_order_stats]. *)
Definition total_orders (t : table) : Z :=
  foldr Z.add 0 ((fun s => status_count s t) <$> all_statuses).

End Store.

(** ** order_queue.py, further operations *)

Module Scheduler.

Import Database Store OrderQueue.

(** The four settings [_load_queue_settings] leaves on the queue. *)
Record QueueSettings := mkSettings {
  s_max_concurrent : Z;
  s_order_timeout : Z;
  s_retry_delay : Z;
  s_max_queue_size : Z
}.

Definition get_default (d : gmap string Z) (key : string) (default : Z) : Z :=
  match d !! key with Some v => v | None => default end.

(** [OrderQueue._load_queue_settings]. [system_config] is [None] when
    reading the configuration raises. The intermediate dictionary
    [queue_settings] has the two keys the source gives it and no other. *)
Definition _load_queue_settings (system_config : option (gmap string Z)) : QueueSettings :=
  match system_config with
  | Some config =>
      let queue_settings : gmap string Z :=
        {["max_concurrent_orders" := get_default config "max_concurrent_orders" 5;
          "order_timeout_minutes" := 30]} in
      mkSettings (get_default queue_settings "max_concurrent_orders" 5)
        (get_default queue_settings "order_timeout_minutes" 30 * 60)
        (get_default queue_settings "retry_delay_seconds" 60)
        (get_default queue_settings "max_queue_size" 500)
  | None => mkSettings 5 1800 60 500
  end.

Inductive AutomationMethod := NOVA_ACT | STRANDS.

(** [AutomationMethod(automation_method)]; [None] is the [ValueError]. *)
Definition AutomationMethod_of (value : string) : option AutomationMethod :=
  if String.eqb value "nova_act" then Some NOVA_ACT
  else if String.eqb value "strands" then Some STRANDS
  else None.

(** The [ValueError]s of [add_order], and the failed commit. *)
Inductive AddOrderError :=
  | RetailerNotConfigured
  | InvalidAutomationMethod
  | QueueFull
  | CommitFailed.

(** [len([o for o in get_all_orders(status_filter=["pending"]) if o.status == PENDING])] *)
Definition pending_count (t : table) : Z :=
  Z.of_nat (length (filter is_pending (get_all_orders (Some ["pending"]) t))).

(** [OrderQueue.add_order]. [retailer_urls] is what the settings service
    returns for the retailer, [max_queue_size] the setting on the queue. *)
Definition add_order (retailer_urls : list string) (automation_method : string)
    (max_queue_size : Z) (new_id : string) (created updated : datetime)
    (p : OrderPriority) (q : OrderQueue) : AddOrderError + (string * OrderQueue) :=
  match retailer_urls with
  | [] => inl RetailerNotConfigured
  | _ :: _ =>
      match AutomationMethod_of automation_method with
      | None => inl InvalidAutomationMethod
      | Some _ =>
          if max_queue_size <=? pending_count (db_manager q) then inl QueueFull
          else
            match create_order new_id created updated p (db_manager q) with
            | Some (order_id, db') =>
                inr (order_id,
                     mkQueue db' (OrderQueue.status q) (processing_orders q)
                       (max_concurrent q) (shutdown_event q) (paused q))
            | None => inl CommitFailed
            end
      end
  end.

(** One whole turn of [_process_queue]: the dispatch, then the sweep. *)
Definition loop_turn (now : datetime) (q : OrderQueue) : OrderQueue * SweepOutcome :=
  _cleanup_completed_tasks (dispatch now q).

(** A running task writes progress or its outcome through
    [update_order_status]; an unknown id raises and changes nothing. *)
Definition task_updates (now : datetime) (order_id : string) (st : OrderStatus)
    (fs : StatusFields) (q : OrderQueue) : OrderQueue :=
  match update_order_status now order_id st fs (db_manager q) with
  | Some db' =>
      mkQueue db' (OrderQueue.status q) (processing_orders q) (max_concurrent q)
        (shutdown_event q) (paused q)
  | None => q
  end.

(** The queue at work: the steps of [OrderQueue.step], and the status
    updates of the per-order tasks. The agents and [_process_order] send
    "processing", "completed", "failed" and "requires_human", never
    "pending". *)
Inductive run : OrderQueue -> OrderQueue -> Prop :=
  | run_step q q' : step q q' -> run q q'
  | run_task_update now order_id st fs q :
      st <> PENDING -> run q (task_updates now order_id st fs q).

Inductive runs : OrderQueue -> OrderQueue -> Prop :=
  | runs_refl q : runs q q
  | runs_run q1 q2 q3 : runs q1 q2 -> run q2 q3 -> runs q1 q3.

(** No order that has a task is PENDING in the store. *)
Definition tasks_are_claimed (q : OrderQueue) : Prop :=
  forall k row, is_Some (processing_orders q !! k) ->
    row ∈ db_manager q -> id row = k -> Database.status row <> PENDING.

End Scheduler.

(** ** services/browser_service.py, further operations *)

Module Registry.

Import Database BrowserService.

(** [list(self.active_sessions.keys())] *)
Definition session_ids (bs : BrowserService) : list string :=
  (map_to_list (active_sessions bs)).*1.

(** [BrowserService.cleanup_all_sessions] and [BrowserService.shutdown]:
    both call [cleanup_session(session_id)], without [force], on every
    key of [active_sessions]. *)
Definition cleanup_all_sessions (in_event_loop : bool) (bs : BrowserService)
    : SweepResult :=
  cleanup_each in_event_loop (session_ids bs) bs.

Definition shutdown (in_event_loop : bool) (bs : BrowserService) : SweepResult :=
  cleanup_each in_event_loop (session_ids bs) bs.

(** Python truthiness of an optional string argument. *)
Definition given (x : option string) : option string :=
  match x with
  | Some s => if String.eqb s "" then None else Some s
  | None => None
  end.

Definition only_session_id (sid : string) : StatusFields :=
  mkFields None None None None None None None (Some sid).

(** The update [register_session] makes in the store: the order keeps
    the status [get_order] reports and receives the session id. Any
    failure (store down, order unknown) is caught and logged. *)
Definition record_session (now : datetime) (sid oid : string) (db : DatabaseManager)
    : DatabaseManager :=
  if reachable db then
    match get_order (orders db) oid with
    | Some order =>
        match update_order_status now oid (Database.status order)
                (only_session_id sid) (orders db) with
        | Some t' => mkDb t' (reachable db)
        | None => db
        end
    | None => db
    end
  else db.

(** [BrowserService.register_session] *)
Definition register_session (now : datetime) (sid : string) (client : BrowserClient)
    (oid : option string) (bs : BrowserService) : BrowserService :=
  mkService
    (match db_manager bs, given oid with
     | Some db, Some o => Some (record_session now sid o db)
     | other, _ => other
     end)
    (active_sessions bs)
    (<[sid := client]> (active_clients bs)).

(** [BrowserService.get_client] *)
Definition get_client (sid : string) (bs : BrowserService) : option BrowserClient :=
  active_clients bs !! sid.

(** [BrowserService.get_session_by_order] *)
Definition get_session_by_order (oid : string) (bs : BrowserService) : option string :=
  match db_manager bs with
  | Some db =>
      match db_get_order db oid with
      | Value (Some order) =>
          match given (Database.session_id order) with
          | Some sid =>
              if bool_decide (is_Some (active_clients bs !! sid))
                 || bool_decide (is_Some (active_sessions bs !! sid))
              then Some sid else None
          | None => None
          end
      | _ => None
      end
  | None => None
  end.

(** One value of the dictionary [list_sessions] returns. *)
Record SessionEntry := mkEntry {
  e_order_id : option string;
  e_active : bool;
  e_created_at : option datetime;
  e_status : string;
  e_browser_id : option string;
  e_resolution : option (Z * Z);
  e_manual_control : bool
}.

Definition entry_of (s : BrowserSession) : SessionEntry :=
  mkEntry (Some (order_id s)) true (Some (BrowserService.created_at s))
    (BrowserService.status s) (Some (browser_id s)) (Some (resolution s))
    (manual_control s).

Definition unknown_entry : SessionEntry :=
  mkEntry None true None "unknown" None None false.

(** [BrowserService.list_sessions]: the sessions first, then every
    client whose id is not yet a key of the result. *)
Definition list_sessions (bs : BrowserService) : gmap string SessionEntry :=
  (entry_of <$> active_sessions bs) ∪ ((fun _ => unknown_entry) <$> active_clients bs).

(** No registered session has a browser client whose [stop()] hangs. *)
Definition no_stuck_client (bs : BrowserService) : Prop :=
  ∀ sid s client, active_sessions bs !! sid = Some s →
    browser_client s = Some client → stop client ≠ Some NeverReturns.

End Registry.

(** ** app.py: POST /api/orders/{order_id}/retry *)

Module Routes.

Import Database.

Inductive Response :=
  | Accepted
  | HTTPException (status_code : Z).

(** The route handler [retry_order] on the store. The order goes back to
    PENDING; the handler then reads [order_queue.process_order], an
    attribute [OrderQueue] does not have, so the [except Exception] arm
    answers 500 after the update is committed. *)
Definition retry_order (now : datetime) (order_id : string) (t : table)
    : table * Response :=
  match get_order t order_id with
  | None => (t, HTTPException 404)
  | Some order =>
      match Database.status order with
      | FAILED | CANCELLED =>
          match update_order_status now order_id PENDING no_fields t with
          | Some t' => (t', HTTPException 500)
          | None => (t, HTTPException 500)
          end
      | _ => (t, HTTPException 400)
      end
  end.

End Routes.

(** ** Sample data *)

Module Samples.

Import Database BrowserService.

Definition new_order (oid : string) (st : OrderStatus) (p : OrderPriority)
    (created : datetime) : OrderModel :=
  mkOrder oid st p created created None None (Some 0) None None None None None
    (Some false) None.

(** Three pending orders: URGENT, NORMAL, HIGH, in that order of creation. *)
Definition three_pending : table :=
  [new_order "order-1" PENDING URGENT 10;
   new_order "order-2" PENDING NORMAL 20;
   new_order "order-3" PENDING HIGH 30].

(** An order that started at 10 and failed at 20. *)
Definition failed_order : OrderModel :=
  mkOrder "order-1" FAILED NORMAL 5 20 (Some 10) (Some 20) (Some 100) None None None
    None (Some "Unknown error") (Some false) None.

(** One completed order that took three seconds, and one failed order. *)
Definition one_completed_one_failed : table :=
  [mkOrder "order-1" COMPLETED NORMAL 0 4000000 (Some 1000000) (Some 4000000)
     (Some 100) None None None None None (Some false) None;
   mkOrder "order-2" FAILED NORMAL 0 9000000 (Some 1000000) (Some 9000000)
     (Some 100) None None None None None (Some false) None].

Definition stuck_client : BrowserClient :=
  mkClient (Some NeverReturns) None None None None.

Definition raising_client : BrowserClient :=
  mkClient (Some Raises) None None None None.

Definition plain_client : BrowserClient :=
  mkClient (Some Returns) (Some CallReturns) None None None.

Definition session_with (client : BrowserClient) (last : datetime) : BrowserSession :=
  mkSession "session-1" "session-1" "browser-1" (Some client) "active" 0 last
    (1280, 720) false "about:blank" None None.

Definition registry_with (client : BrowserClient) : BrowserService :=
  mkService None {["session-1" := session_with client 0]} {["session-1" := client]}.

(** A registry whose store knows the order of "session-1" as requiring a
    human. *)
Definition human_order : OrderModel :=
  new_order "session-1" REQUIRES_HUMAN NORMAL 0.

Definition human_store : DatabaseManager := mkDb [human_order] true.




(** A queue with room for one task, started, then after one turn of the
    loop. *)
Definition started_queue : OrderQueue.OrderQueue :=
  OrderQueue.start (OrderQueue.init three_pending 1).

Definition busy_queue : OrderQueue.OrderQueue :=
  OrderQueue.dispatch 100 started_queue.

(** An agent in the middle of a [process_order] call. *)
Definition busy_agent : Agents.Agent :=
  (Agents.process_order_enter (Agents.new_agent Agents.StrandsAgent)).1.

Definition small_request : gmap string Z := {["width" := 100; "height" := 50]}.

End Samples.

(** Two sessions, of which only the first belongs to an order that
    requires a human; both were last accessed at time 0. *)
Module MoreSamples.

Import Database BrowserService Samples.

Definition second_session : BrowserSession :=
  mkSession "session-2" "session-2" "browser-2" (Some plain_client) "active" 0 0
    (1280, 720) false "about:blank" None None.

Definition mixed_registry : BrowserService :=
  mkService (Some human_store)
    {["session-1" := session_with plain_client 0; "session-2" := second_session]}
    {["session-1" := plain_client; "session-2" := plain_client]}.

(** An order cancelled while pending. *)
Definition pending_order : OrderModel := new_order "order-9" PENDING NORMAL 10.

End MoreSamples.

(** * Properties *)

(** ** The order store *)

Section DatabaseFacts.

Import Database.

Lemma OrderStatus_eqb_eq (a b : OrderStatus) : OrderStatus_eqb a b = true ↔ a = b.
Proof. destruct a, b; simpl; split; intro H; try reflexivity; discriminate H. Qed.

Lemma is_pending_true (o : OrderModel) : Is_true (is_pending o) ↔ status o = PENDING.
Proof. unfold is_pending. rewrite Is_true_true. apply OrderStatus_eqb_eq. Qed.

(** The sort key is a total preorder. *)
Lemma goes_before_spec (a b : OrderModel) :
  goes_before a b = true ↔
  priority_value (priority b) < priority_value (priority a)
  ∨ (priority_value (priority a) = priority_value (priority b)
     ∧ created_at a ≤ created_at b).
Proof.
  unfold goes_before.
  rewrite orb_true_iff, andb_true_iff, Z.ltb_lt, Z.eqb_eq, Z.leb_le. tauto.
Qed.

Lemma goes_before_total (a b : OrderModel) :
  goes_before a b = false → goes_before b a = true.
Proof.
  intro H. apply goes_before_spec.
  destruct (goes_before b a) eqn:Hba; [apply goes_before_spec in Hba; exact Hba|].
  assert (Hn : ¬ (goes_before a b = true)) by congruence.
  rewrite goes_before_spec in Hn. lia.
Qed.

Lemma goes_before_trans (a b c : OrderModel) :
  goes_before a b = true → goes_before b c = true → goes_before a c = true.
Proof. rewrite !goes_before_spec. lia. Qed.

Lemma goes_before_refl (a : OrderModel) : goes_before a a = true.
Proof. apply goes_before_spec. lia. Qed.

Lemma filter_cons_bool {A} (P : A → bool) (x : A) (l : list A) :
  filter P (x :: l) = if P x then x :: filter P l else filter P l.
Proof.
  destruct (P x) eqn:E.
  - apply filter_cons_True. by rewrite E.
  - apply filter_cons_False. rewrite E. intros Hfalse. exact Hfalse.
Qed.

Lemma head_insert_row (o : OrderModel) (l : list OrderModel) :
  head (insert_row o l) =
  Some (match head l with
        | Some x => if goes_before o x then o else x
        | None => o
        end).
Proof. destruct l as [|x l]; simpl; [reflexivity|]. destruct (goes_before o x); reflexivity. Qed.

(** The first row of the sorted result is a row of the input that may
    stand before every other one. *)
Lemma head_order_by (rows : list OrderModel) (p : OrderModel) :
  head (order_by rows) = Some p →
  p ∈ rows ∧ ∀ q, q ∈ rows → goes_before p q = true.
Proof.
  revert p. induction rows as [|r rows IH]; intros p; simpl.
  - discriminate.
  - rewrite head_insert_row. intros [= Hp].
    destruct (head (order_by rows)) as [x|] eqn:Hx.
    + destruct (IH x eq_refl) as [Hin Hmin].
      destruct (goes_before r x) eqn:Hrx; subst p.
      * split; [left|]. intros q [->|Hq]%elem_of_cons; [apply goes_before_refl|].
        eapply goes_before_trans; [exact Hrx|]. by apply Hmin.
      * split; [by right|]. intros q [->|Hq]%elem_of_cons; [|by apply Hmin].
        by apply goes_before_total.
    + subst p. split; [left|].
      intros q [->|Hq]%elem_of_cons; [apply goes_before_refl|].
      destruct rows as [|r' rows']; [by apply elem_of_nil in Hq|].
      simpl in Hx. rewrite head_insert_row in Hx. discriminate Hx.
Qed.

Lemma head_order_by_None (rows : list OrderModel) :
  head (order_by rows) = None → rows = [].
Proof.
  destruct rows as [|r rows]; [reflexivity|].
  simpl. rewrite head_insert_row. discriminate.
Qed.

Lemma elem_of_update_where_id (oid : string) (f : OrderModel → OrderModel)
    (t : table) (q : OrderModel) :
  q ∈ update_where_id oid f t ↔
  ∃ o, o ∈ t ∧ q = if String.eqb (id o) oid then f o else o.
Proof.
  unfold update_where_id. rewrite list_elem_of_fmap. split; intros (o & H1 & H2); eauto.
Qed.

(** After a claim no pending row carries the claimed id. *)
Lemma claimed_id_not_pending (now : datetime) (p : OrderModel) (t : table) (q : OrderModel) :
  q ∈ update_where_id (id p) (claim now) t → status q = PENDING → id q ≠ id p.
Proof.
  rewrite elem_of_update_where_id. intros (o & Ho & ->) Hst.
  destruct (String.eqb (id o) (id p)) eqn:E.
  - simpl in Hst. discriminate Hst.
  - by apply String.eqb_neq in E.
Qed.

(** What [get_next_order] returns when it returns an order. *)
Lemma get_next_order_Some (now : datetime) (t : table) (o : OrderModel) (t' : table) :
  get_next_order now t = (Some o, t') →
  ∃ p, p ∈ t ∧ status p = PENDING
       ∧ (∀ q, q ∈ t → status q = PENDING → goes_before p q = true)
       ∧ o = claim now p ∧ t' = update_where_id (id p) (claim now) t.
Proof.
  unfold get_next_order.
  destruct (head (order_by (filter is_pending t))) as [p|] eqn:Hhd; [|discriminate].
  intros [= <- <-]. exists p.
  destruct (head_order_by _ _ Hhd) as [Hin Hmin].
  apply list_elem_of_filter in Hin as [Hpend Hin].
  repeat split; try done.
  - by apply is_pending_true.
  - intros q Hq Hst. apply Hmin, list_elem_of_filter. split; [|done].
    by apply is_pending_true.
Qed.

Lemma get_next_order_None (now : datetime) (t : table) (t' : table) :
  get_next_order now t = (None, t') →
  t' = t ∧ ∀ q, q ∈ t → status q ≠ PENDING.
Proof.
  unfold get_next_order.
  destruct (head (order_by (filter is_pending t))) as [p|] eqn:Hhd; [discriminate|].
  intros [= <-]. split; [done|]. intros q Hq Hst.
  apply head_order_by_None in Hhd.
  assert (Hin : q ∈ filter is_pending t).
  { apply list_elem_of_filter. split; [by apply is_pending_true|done]. }
  rewrite Hhd in Hin. by apply elem_of_nil in Hin.
Qed.

(** The row read back after [UPDATE ... WHERE orders.id = ?]. *)
Lemma head_filter_update_where_id (oid : string) (f : OrderModel → OrderModel)
    (t : table) (p : OrderModel) :
  (∀ o, id (f o) = id o) → p ∈ t → id p = oid →
  ∃ p', p' ∈ t ∧ id p' = oid
        ∧ head (filter (fun o => String.eqb (id o) oid) (update_where_id oid f t))
          = Some (f p').
Proof.
  intros Hid. induction t as [|o t IH]; intros Hp Hoid; [by apply elem_of_nil in Hp|].
  unfold update_where_id. rewrite fmap_cons. fold (update_where_id oid f t).
  rewrite filter_cons_bool.
  destruct (String.eqb (id o) oid) eqn:E.
  - rewrite Hid, E. exists o. split; [left|]. split; [by apply String.eqb_eq|done].
  - rewrite E. apply elem_of_cons in Hp as [->|Hp].
    + apply String.eqb_neq in E. done.
    + destruct (IH Hp Hoid) as (p' & Hin & Hid' & Hhd).
      exists p'. split; [by right|]. by split.
Qed.

End DatabaseFacts.

Section ClaimNextOrder.

Import Database.

(** One call of [get_next_order], alone on the store: it picks, among the
    rows with status PENDING, one of maximal priority and, among those,
    of earliest [created_at]; in the same commit it marks that order
    PROCESSING with [started_at] set to the claim time, and returns it.
    With no PENDING row it returns [None] and leaves the table as it was.
    A second call, made after the first has committed, never returns the
    order the first one claimed. *)
Lemma get_next_order_alone (now : datetime) (t : table) :
  match get_next_order now t with
  | (Some o, t') =>
      ∃ p, p ∈ t ∧ status p = PENDING
        ∧ (∀ q, q ∈ t → status q = PENDING →
             priority_value (priority q) ≤ priority_value (priority p)
             ∧ (priority q = priority p → created_at p ≤ created_at q))
        ∧ o = claim now p
        ∧ id o = id p ∧ status o = PROCESSING ∧ started_at o = Some now
        ∧ o ∈ t'
        ∧ (∀ q, q ∈ t' → id q = id p →
             status q = PROCESSING ∧ started_at q = Some now)
        ∧ (∀ i q, t !! i = Some q → id q ≠ id p → t' !! i = Some q)
        ∧ (∀ now2 : datetime,
             match get_next_order now2 t' with
             | (Some o2, _) => id o2 ≠ id o
             | (None, _) => True
             end)
  | (None, t') => t' = t ∧ ∀ q, q ∈ t → status q ≠ PENDING
  end.
Proof.
  destruct (get_next_order now t) as [[o|] t'] eqn:Hnext.
  - apply get_next_order_Some in Hnext as (p & Hin & Hpend & Hmin & -> & ->).
    exists p.
    split; [done|]. split; [done|].
    split.
    { intros q Hq Hst. specialize (Hmin q Hq Hst).
      apply goes_before_spec in Hmin. split; [lia|].
      intros Hprio. rewrite Hprio in Hmin. lia. }
    split; [done|]. split; [done|]. split; [done|]. split; [done|].
    split.
    { apply elem_of_update_where_id. exists p. split; [done|].
      by rewrite String.eqb_refl. }
    split.
    { intros q Hq Hid. apply elem_of_update_where_id in Hq as (o & Ho & ->).
      destruct (String.eqb (id o) (id p)) eqn:E; [done|].
      by apply String.eqb_neq in E. }
    split.
    { intros i q Hq Hne. unfold update_where_id.
      rewrite list_lookup_fmap, Hq. simpl.
      apply String.eqb_neq in Hne. by rewrite Hne. }
    intros now2.
    destruct (get_next_order now2 (update_where_id (id p) (claim now) t))
      as [[o2|] t2] eqn:Hnext2; [|done].
    apply get_next_order_Some in Hnext2 as (p2 & Hin2 & Hpend2 & _ & -> & _).
    simpl. by eapply claimed_id_not_pending.
  - by apply get_next_order_None in Hnext.
Qed.

(** C1. Two calls of [get_next_order] that overlap on a store without
    row locks (SQLite, the default, where [with_for_update] is ignored)
    claim the same order. Whenever a PENDING order is there, the one a
    lone call claims, both queries select it, and the second commit,
    [UPDATE ... WHERE orders.id = ?] with no test of the status,
    overwrites the first: both calls return that order as PROCESSING,
    each with its own [started_at], and the row keeps the later one. *)
Theorem get_next_order_overlapping_calls_claim_one_order (now1 now2 : datetime)
    (t : table) (p : OrderModel) :
  select_next_pending t = Some p →
  get_next_order now1 t = (Some (claim now1 p), update_where_id (id p) (claim now1) t)
  ∧ ∃ o1 o2 t2,
      overlapping_get_next_order now1 now2 t = (Some o1, Some o2, t2)
      ∧ id o1 = id p ∧ id o2 = id p
      ∧ status o1 = PROCESSING ∧ status o2 = PROCESSING
      ∧ started_at o1 = Some now1 ∧ started_at o2 = Some now2
      ∧ t2 = update_where_id (id p) (claim now2)
               (update_where_id (id p) (claim now1) t)
      ∧ (∀ q, q ∈ t2 → id q = id p →
           status q = PROCESSING ∧ started_at q = Some now2).
Proof.
  intros Hsel. unfold select_next_pending in Hsel.
  split; [unfold get_next_order; by rewrite Hsel|].
  assert (Hin : p ∈ t).
  { apply head_order_by in Hsel as [Hin _].
    by apply list_elem_of_filter in Hin as [_ Hin]. }
  destruct (head_filter_update_where_id (id p) (claim now1) t p) as (p1 & _ & Hid1 & Hhd1);
    [done..|].
  assert (Hin1 : claim now1 p ∈ update_where_id (id p) (claim now1) t).
  { apply elem_of_update_where_id. exists p. split; [done|]. by rewrite String.eqb_refl. }
  destruct (head_filter_update_where_id (id p) (claim now2)
              (update_where_id (id p) (claim now1) t) (claim now1 p))
    as (p2 & _ & Hid2 & Hhd2); [done..|].
  eexists (claim now1 p1), (claim now2 p2), _.
  split.
  { unfold overlapping_get_next_order, select_next_pending, commit_claim.
    rewrite Hsel, Hhd1, Hhd2. reflexivity. }
  split; [done|]. split; [done|]. split; [done|]. split; [done|]. split; [done|].
  split; [done|]. split; [done|].
  intros q Hq Hidq. apply elem_of_update_where_id in Hq as (o & Ho & ->).
  destruct (String.eqb (id o) (id p)) eqn:E; [done|].
  by apply String.eqb_neq in E.
Qed.

End ClaimNextOrder.

Section CancelOrder.

Import Database.

Lemma cancel_matches_spec (oid : string) (o : OrderModel) :
  cancel_matches oid o = true ↔ id o = oid ∧ status o = PENDING.
Proof.
  unfold cancel_matches. by rewrite andb_true_iff, String.eqb_eq, OrderStatus_eqb_eq.
Qed.

Lemma filter_nonempty {A} (P : A → bool) (l : list A) :
  (0 <? Z.of_nat (length (filter P l))) = true ↔ ∃ x, x ∈ l ∧ P x = true.
Proof.
  rewrite Z.ltb_lt. split.
  - intros Hlen. destruct (filter P l) as [|x l'] eqn:Hf; [simpl in Hlen; lia|].
    assert (Hx : x ∈ filter P l) by (rewrite Hf; left).
    apply list_elem_of_filter in Hx as [HP Hx]. exists x. split; [done|].
    by apply Is_true_true.
  - intros (x & Hx & HP).
    assert (Hin : x ∈ filter P l).
    { apply list_elem_of_filter. split; [by apply Is_true_true|done]. }
    destruct (filter P l); [by apply elem_of_nil in Hin|simpl; lia].
Qed.

(** The store-level cancel succeeds exactly when a pending row has the id. *)
Lemma cancel_order_true_iff (now : datetime) (oid : string) (t : table) :
  (cancel_order now oid t).1 = true ↔ ∃ o, o ∈ t ∧ id o = oid ∧ status o = PENDING.
Proof.
  unfold cancel_order. simpl. rewrite filter_nonempty.
  split; intros (o & Ho & Hm); exists o; split; try done; by apply cancel_matches_spec.
Qed.

(** Row by row: a pending row with the id becomes CANCELLED, every other
    row stays as it is. *)
Lemma cancel_order_rows (now : datetime) (oid : string) (t : table) (i : nat)
    (o : OrderModel) :
  t !! i = Some o →
  (cancel_order now oid t).2 !! i =
    Some (if cancel_matches oid o then cancel_row now o else o).
Proof.
  intros Ho. unfold cancel_order. simpl. by rewrite list_lookup_fmap, Ho.
Qed.

Lemma cancel_order_false_unchanged (now : datetime) (oid : string) (t : table) :
  (cancel_order now oid t).1 = false → (cancel_order now oid t).2 = t.
Proof.
  intros Hres. unfold cancel_order. simpl.
  rewrite <- (list_fmap_id t) at 2. apply list_fmap_ext.
  intros i o Ho. destruct (cancel_matches oid o) eqn:Hm; [|done].
  assert (Htrue : (cancel_order now oid t).1 = true).
  { apply cancel_order_true_iff. apply cancel_matches_spec in Hm as [? ?].
    exists o. split; [by eapply list_elem_of_lookup_2|done]. }
  congruence.
Qed.

End CancelOrder.

Section Timestamps.

Import Database.

Lemma get_order_Some (t : table) (oid : string) (o : OrderModel) :
  get_order t oid = Some o → o ∈ t ∧ id o = oid.
Proof.
  unfold get_order. intros H. apply find_some in H as [Hin Heq].
  split; [by apply list_elem_of_In|by apply String.eqb_eq].
Qed.

Lemma update_order_status_rows (now : datetime) (oid : string)
    (st : OrderStatus) (fs : StatusFields) (t t' : table) :
  update_order_status now oid st fs t = Some t' →
  ∀ i o, t !! i = Some o →
    ∃ o', t' !! i = Some o' ∧
      if String.eqb (id o) oid then
        status o' = st
        ∧ (is_Some (started_at o) → started_at o' = started_at o)
        ∧ (started_at o = None →
             started_at o' = if OrderStatus_eqb st PROCESSING then Some now else None)
        ∧ completed_at o' = (if is_terminal st then Some now else completed_at o)
      else o' = o.
Proof.
  unfold update_order_status. destruct (get_order t oid) as [found|]; [|discriminate].
  intros [= <-] i o Ho. unfold update_where_id. rewrite list_lookup_fmap, Ho. simpl.
  eexists. split; [reflexivity|].
  destruct (String.eqb (id o) oid); [|done].
  unfold apply_status, first_start. simpl.
  destruct (started_at o) as [s|]; simpl; rewrite ?andb_false_r, ?andb_true_r.
  - split; [done|]. split; [done|]. split; [intros [=]|done].
  - split; [done|]. split; [by intros [? [=]]|].
    split; [intros _|]; destruct st; reflexivity.
Qed.

(** C7, as the code has it. An update through [update_order_status]
    never overwrites a [started_at] that is set: it sets the column only
    on an update to PROCESSING while it is unset. It sets [completed_at]
    to the time of the update on every update to COMPLETED, FAILED or
    CANCELLED, also when the column was set before, and leaves it alone
    on every other update; rows of other orders are untouched. A claim
    through [get_next_order] sets [started_at] of the claimed order to
    the time of the claim, whatever it held, and keeps [completed_at]. *)
Theorem order_timestamps_follow_the_last_update :
  (∀ (now : datetime) (oid : string) (st : OrderStatus) (fs : StatusFields)
     (t t' : table),
     update_order_status now oid st fs t = Some t' →
     ∀ i o, t !! i = Some o →
       ∃ o', t' !! i = Some o' ∧
         if String.eqb (id o) oid then
           status o' = st
           ∧ (is_Some (started_at o) → started_at o' = started_at o)
           ∧ (started_at o = None →
                started_at o' =
                  if OrderStatus_eqb st PROCESSING then Some now else None)
           ∧ completed_at o' = (if is_terminal st then Some now else completed_at o)
         else o' = o)
  ∧ (∀ (now : datetime) (t t' : table) (o : OrderModel),
       get_next_order now t = (Some o, t') →
       started_at o = Some now
       ∧ ∀ i p, t !! i = Some p →
           ∃ p', t' !! i = Some p' ∧
             if String.eqb (id p) (id o)
             then started_at p' = Some now ∧ completed_at p' = completed_at p
             else p' = p).
Proof.
  split; [exact update_order_status_rows|].
  intros now t t' o Hnext.
  apply get_next_order_Some in Hnext as (p0 & _ & _ & _ & -> & ->).
  split; [reflexivity|]. intros i p Hp.
  unfold update_where_id. rewrite list_lookup_fmap, Hp. simpl.
  eexists. split; [reflexivity|]. by destruct (String.eqb (id p) (id p0)).
Qed.

End Timestamps.

Section OrderStats.

Import Database.

Lemma total_seconds_pos (d : Z) : (0 < total_seconds d)%Qc ↔ 0 < d.
Proof.
  assert (H : (this (total_seconds d) == d # 1000000)%Q) by apply Qred_correct.
  unfold Qclt. rewrite H. change (this 0%Qc) with 0%Q.
  unfold Qlt. simpl. lia.
Qed.

Lemma in_window_pos (s c : datetime) :
  in_window (total_seconds (c - s)) = true → (s <? c) = true.
Proof.
  unfold in_window. rewrite andb_true_iff, !bool_decide_eq_true.
  intros [Hpos _]. pose proof (proj1 (total_seconds_pos (c - s)) Hpos) as Hlt.
  apply Z.ltb_lt. lia.
Qed.

Lemma add_duration_row (total : Qc) (valid : Z) (row : datetime * datetime) :
  add_duration (total, valid) row =
  match row_duration row with
  | Some d => ((total + d)%Qc, valid + 1)
  | None => (total, valid)
  end.
Proof.
  destruct row as [s c]. unfold add_duration, row_duration. simpl.
  destruct (in_window (total_seconds (c - s))) eqn:Hw.
  - by rewrite (in_window_pos _ _ Hw).
  - by destruct (s <? c).
Qed.

Lemma foldl_add_duration (rows : list (datetime * datetime)) (total : Qc) (valid : Z) :
  foldl add_duration (total, valid) rows =
  ((total + sum_Qc (omap row_duration rows))%Qc,
   valid + Z.of_nat (length (omap row_duration rows))).
Proof.
  revert total valid. induction rows as [|row rows IH]; intros total valid.
  - simpl. f_equal; [ring|lia].
  - change (foldl add_duration (total, valid) (row :: rows))
      with (foldl add_duration (add_duration (total, valid) row) rows).
    change (omap row_duration (row :: rows))
      with (match row_duration row with
            | Some d => d :: omap row_duration rows
            | None => omap row_duration rows
            end).
    rewrite add_duration_row. destruct (row_duration row) as [d|].
    + rewrite IH. f_equal; [unfold sum_Qc; simpl; ring|simpl length; lia].
    + apply IH.
Qed.

Lemma omap_cons {A B} (f : A → option B) (x : A) (l : list A) :
  omap f (x :: l) = match f x with Some y => y :: omap f l | None => omap f l end.
Proof. reflexivity. Qed.

Lemma counted_durations_rows (t : table) :
  counted_durations t = omap row_duration (completed_orders_with_times t).
Proof.
  unfold counted_durations, completed_orders_with_times.
  induction t as [|o t IH]; [reflexivity|].
  rewrite !omap_cons, IH. unfold counted_duration.
  destruct (has_status COMPLETED o); [|reflexivity].
  destruct (started_at o) as [s|]; [|reflexivity].
  destruct (completed_at o) as [c|]; [|reflexivity].
  rewrite omap_cons. unfold row_duration. simpl fst. simpl snd.
  destruct (in_window (total_seconds (c - s))); reflexivity.
Qed.

(** The loop of [get_order_stats] computes the stated average. *)
Lemma avg_time_stated (t : table) : avg_time t = stated_average t.
Proof.
  unfold avg_time, stated_average. rewrite counted_durations_rows.
  destruct (completed_orders_with_times t) as [|row rows] eqn:Hrows; [reflexivity|].
  rewrite foldl_add_duration.
  destruct (omap row_duration (row :: rows)) as [|d ds] eqn:Hds.
  - reflexivity.
  - replace (0 <? 0 + Z.of_nat (length (d :: ds))) with true
      by (symmetry; apply Z.ltb_lt; simpl; lia).
    rewrite Z.add_0_l. f_equal. ring.
Qed.

(** C9, as the code has it. The success rate is the percentage
    [completed / (completed + failed) * 100], and 0 when no order is
    completed or failed. The average processing time is taken over
    exactly the completed orders with both [started_at] and
    [completed_at] whose duration is above 0 and at most 7200 seconds:
    the sum of those durations over their number, and 0 when there is
    none. *)
Theorem get_order_stats_rate_and_average (t : table) :
  success_rate t =
    (if 0 <? status_count COMPLETED t + status_count FAILED t
     then (Z2Qc (status_count COMPLETED t)
           / Z2Qc (status_count COMPLETED t + status_count FAILED t) * Z2Qc 100)%Qc
     else 0%Qc)
  ∧ (status_count COMPLETED t + status_count FAILED t = 0 → success_rate t = 0%Qc)
  ∧ avg_time t = stated_average t
  ∧ (∀ d, d ∈ counted_durations t ↔
       ∃ o s c, o ∈ t ∧ status o = COMPLETED
         ∧ started_at o = Some s ∧ completed_at o = Some c
         ∧ d = total_seconds (c - s)
         ∧ (0 < d)%Qc ∧ (d <= Z2Qc 7200)%Qc).
Proof.
  split; [reflexivity|]. split.
  { intros H0. unfold success_rate. by rewrite H0. }
  split; [apply avg_time_stated|].
  intros d. unfold counted_durations. rewrite list_elem_of_omap. split.
  - intros (o & Ho & Hd). unfold counted_duration in Hd.
    destruct (has_status COMPLETED o) eqn:Hst; [|discriminate].
    destruct (started_at o) as [s|] eqn:Hs; [|discriminate].
    destruct (completed_at o) as [c|] eqn:Hc; [|discriminate].
    simpl in Hd. destruct (in_window (total_seconds (c - s))) eqn:Hw; [|discriminate].
    injection Hd as <-. exists o, s, c.
    unfold in_window in Hw. apply andb_true_iff in Hw as [H1 H2].
    apply bool_decide_eq_true in H1, H2.
    repeat split; try done. by apply OrderStatus_eqb_eq.
  - intros (o & s & c & Ho & Hst & Hs & Hc & -> & Hpos & Hle).
    exists o. split; [done|]. unfold counted_duration, has_status.
    rewrite Hst, Hs, Hc. simpl.
    unfold in_window. by rewrite !bool_decide_eq_true_2.
Qed.

End OrderStats.

(** ** The dispatcher *)

Section DispatchLoop.

Import Database OrderQueue.

Lemma can_dispatch_spec (q : OrderQueue) :
  can_dispatch q = true ↔
  OrderQueue.status q = RUNNING
  ∧ Z.of_nat (size (processing_orders q)) < max_concurrent q.
Proof.
  unfold can_dispatch. rewrite andb_true_iff, Z.ltb_lt.
  destruct (OrderQueue.status q); simpl; split; intros [? ?]; split; done.
Qed.


Lemma dispatch_max_concurrent (now : datetime) (q : OrderQueue) :
  max_concurrent (dispatch now q) = max_concurrent q.
Proof.
  unfold dispatch. destruct (can_dispatch q); [|done].
  by destruct (get_next_order now (db_manager q)) as [[o|] db'].
Qed.

(** A dispatch adds at most one task, and only below the ceiling. *)
Lemma dispatch_size (now : datetime) (q : OrderQueue) :
  Z.of_nat (size (processing_orders (dispatch now q)))
  ≤ Z.max (Z.of_nat (size (processing_orders q))) (max_concurrent q).
Proof.
  unfold dispatch. destruct (can_dispatch q) eqn:Hcan; [|lia].
  apply can_dispatch_spec in Hcan as [_ Hlt].
  destruct (get_next_order now (db_manager q)) as [[o|] db']; [|lia].
  simpl. rewrite map_size_insert.
  destruct (processing_orders q !! id o); simpl; lia.
Qed.

Lemma dispatch_within_capacity (now : datetime) (q : OrderQueue) :
  within_capacity q → within_capacity (dispatch now q).
Proof.
  unfold within_capacity. intros Hq. rewrite dispatch_max_concurrent.
  pose proof (dispatch_size now q). lia.
Qed.

(** The sweep never adds an entry and leaves the settings alone. *)
Lemma cleanup_completed_tasks_shrinks (q : OrderQueue) :
  (size (processing_orders (_cleanup_completed_tasks q).1)
   ≤ size (processing_orders q))%nat
  ∧ max_concurrent (_cleanup_completed_tasks q).1 = max_concurrent q
  ∧ db_manager (_cleanup_completed_tasks q).1 = db_manager q
  ∧ OrderQueue.status (_cleanup_completed_tasks q).1 = OrderQueue.status q
  ∧ (∀ k task, processing_orders (_cleanup_completed_tasks q).1 !! k = Some task →
       processing_orders q !! k = Some task).
Proof.
  unfold _cleanup_completed_tasks. destruct (forallb _ _); simpl; [|done].
  split; [|split; [done|split; [done|split; [done|]]]].
  - apply map_subseteq_size, map_filter_subseteq.
  - intros k task Hk. by apply map_lookup_filter_Some in Hk as [Hk _].
Qed.

(** The sweep goes through exactly when no task in the map ended by
    cancellation. *)
Lemma sweep_outcome (tasks : gmap string Task) :
  forallb (fun kv : string * Task => not_cancelled kv.2) (map_to_list tasks) = true
  ↔ ∀ k, tasks !! k ≠ Some TaskCancelled.
Proof.
  rewrite forallb_forall. split.
  - intros Hall k Hk. apply elem_of_map_to_list, list_elem_of_In in Hk.
    by specialize (Hall _ Hk).
  - intros Hnone [k task] Hin. apply list_elem_of_In, elem_of_map_to_list in Hin.
    simpl. destruct task; try done. by destruct (Hnone k).
Qed.

Lemma sweep_raises (q : OrderQueue) (k : string) :
  processing_orders q !! k = Some TaskCancelled →
  _cleanup_completed_tasks q = (q, RaisedCancelledError).
Proof.
  intros Hk. unfold _cleanup_completed_tasks.
  destruct (forallb _ _) eqn:Hall; [|done].
  pose proof (proj1 (sweep_outcome _) Hall) as Hnone. by destruct (Hnone k).
Qed.




(** C6. The store-level [cancel_order] returns true exactly when some
    order with that id is still PENDING, and then that order becomes
    CANCELLED; an order in any other status keeps its row unchanged, and
    a call that returns false leaves the whole table as it was. The
    queue-level [cancel_order] first cancels and awaits the task in
    flight for that id, if there is one, drops the id from the
    active-task map, and only then runs the store-level cancel, whose
    result it returns. *)
Theorem cancel_order_succeeds_only_while_pending (now : datetime) (oid : string)
    (q : OrderQueue) :
  let stored := Database.cancel_order now oid (db_manager q) in
  let '(result, q', events) := OrderQueue.cancel_order now oid q in
  (stored.1 = true ↔
     ∃ o, o ∈ db_manager q ∧ id o = oid ∧ Database.status o = PENDING)
  ∧ (∀ i o, db_manager q !! i = Some o →
       ∃ o', stored.2 !! i = Some o' ∧
         if String.eqb (id o) oid && OrderStatus_eqb (Database.status o) PENDING
         then Database.status o' = CANCELLED ∧ id o' = id o
         else o' = o)
  ∧ (stored.1 = false → stored.2 = db_manager q)
  ∧ result = stored.1
  ∧ db_manager q' = stored.2
  ∧ processing_orders q' = delete oid (processing_orders q)
  ∧ events =
      match processing_orders q !! oid with
      | Some TaskRunning => [TaskCancel oid; TaskAwait oid; StoreCancel oid]
      | _ => [StoreCancel oid]
      end.
Proof.
  intros stored. unfold OrderQueue.cancel_order.
  destruct (processing_orders q !! oid) as [task|] eqn:Htask;
    fold stored; destruct stored as [res db'] eqn:Hstored; simpl.
  all: assert (Hres : res = (Database.cancel_order now oid (db_manager q)).1)
         by (fold stored; by rewrite Hstored).
  all: assert (Hdb : db' = (Database.cancel_order now oid (db_manager q)).2)
         by (fold stored; by rewrite Hstored).
  all: (split; [rewrite Hres; apply cancel_order_true_iff|]).
  all: (split; [intros i o Ho; rewrite Hdb, (cancel_order_rows _ _ _ _ _ Ho);
                eexists; split; [reflexivity|];
                unfold cancel_matches; by destruct (_ && _)|]).
  all: (split; [rewrite Hres, Hdb; apply cancel_order_false_unchanged|]).
  all: (split; [done|]); (split; [done|]).
  - split; [done|]. by destruct task.
  - split; [|done]. symmetry. by apply delete_id.
Qed.

End DispatchLoop.

(** ** The automation agents *)

Section AgentGuard.

Import Agents.

Lemma step_guarded (a a' : Agent) : guarded a → step a a' → guarded a'.
Proof.
  intros Hg Hstep. destruct Hstep as [a|a Hactive].
  - unfold process_order_enter. destruct Hg as [[Hf Hn]|[Hf Hn]]; rewrite Hf; simpl.
    + left. done.
    + left. by rewrite Hn.
  - destruct Hg as [[Hf Hn]|[Hf Hn]]; [|lia].
    right. simpl. by rewrite Hn.
Qed.

Lemma step_kind (a a' : Agent) : step a a' → kind a' = kind a.
Proof.
  intros Hstep. destruct Hstep as [a|a Hactive]; [|done].
  unfold process_order_enter. by destruct (_is_processing a).
Qed.

Lemma steps_guarded (k : AgentKind) (a : Agent) :
  steps (new_agent k) a → guarded a ∧ kind a = k.
Proof.
  intros Hsteps. remember (new_agent k) as a0 eqn:Ha0.
  induction Hsteps as [|a1 a2 a3 Hsteps IH Hstep].
  - subst. split; [by right|done].
  - destruct (IH Ha0) as [Hg Hk]. split; [by eapply step_guarded|].
    rewrite <- Hk. by apply step_kind.
Qed.

(** C4. On either kind of agent, a [process_order] that finds
    [_is_processing] set returns at once with [success = false] and the
    error "Another order is already being processed", and changes
    nothing: no automation run begins. Over any interleaving of
    [process_order] calls on one instance, the flag is set exactly while
    a call is past the guard, so at most one call is ever active. *)
Theorem process_order_rejects_second_call (k : AgentKind) (a : Agent) :
  steps (new_agent k) a →
  (active_calls a ≤ 1)%nat
  ∧ (_is_processing a = true ↔ active_calls a = 1%nat)
  ∧ (_is_processing a = true →
       process_order_enter a =
         (a, Some (mkResult false "failed"
                     (Some "Another order is already being processed")
                     (automation_method k)))
       ∧ automation_runs (process_order_enter a).1 = automation_runs a
       ∧ active_calls (process_order_enter a).1 = active_calls a)
  ∧ (_is_processing a = false →
       (process_order_enter a).2 = None
       ∧ _is_processing (process_order_enter a).1 = true
       ∧ active_calls (process_order_enter a).1 = 1%nat).
Proof.
  intros Hsteps. destruct (steps_guarded k a Hsteps) as [Hg Hk].
  unfold process_order_enter.
  destruct Hg as [[Hf Hn]|[Hf Hn]]; rewrite Hf, Hn, ?Hk; simpl.
  - split; [lia|]. split; [done|]. split; [done|]. intros [=].
  - split; [lia|]. split; [split; intros [=]|]. split; [intros [=]|done].
Qed.

End AgentGuard.

(** ** The session registry *)

Section SessionRegistry.

Import Database BrowserService.

Lemma cleanup_playwright_sid (sid : string) (s : BrowserSession) (c : ResourceCall) :
  c ∈ cleanup_playwright sid s → call_sid c = sid.
Proof.
  unfold cleanup_playwright. intros Hc. apply elem_of_app in Hc as [Hc|Hc].
  - destruct (is_Some_b (browser s)); [|by apply elem_of_nil in Hc].
    by apply list_elem_of_singleton in Hc as ->.
  - destruct (is_Some_b (playwright s)); [|by apply elem_of_nil in Hc].
    by apply list_elem_of_singleton in Hc as ->.
Qed.

(** A cleanup touches one id only: the entries of every other id, the
    store handle, and the resources of every other session stay. *)
Lemma locked_cleanup_frame (in_loop : bool) (sid : string) (bs : BrowserService) :
  let r := locked_cleanup in_loop sid bs in
  db_manager (service r) = db_manager bs
  ∧ (∀ other, other ≠ sid →
       active_sessions (service r) !! other = active_sessions bs !! other
       ∧ active_clients (service r) !! other = active_clients bs !! other)
  ∧ (∀ c, c ∈ calls r → call_sid c = sid).
Proof.
  unfold locked_cleanup.
  assert (Hcalls1 : ∀ s c,
            c ∈ (if in_loop then [] else cleanup_playwright sid s) → call_sid c = sid).
  { intros s c Hc. destruct in_loop; [by apply elem_of_nil in Hc|].
    by eapply cleanup_playwright_sid. }
  assert (Hcalls : ∀ s extra c,
            (∀ c', c' ∈ extra → call_sid c' = sid) →
            c ∈ (if in_loop then [] else cleanup_playwright sid s) ++ extra →
            call_sid c = sid).
  { intros s extra c Hextra Hc. apply elem_of_app in Hc as [Hc|Hc]; eauto. }
  assert (Hstop : ∀ c', c' ∈ [ClientStop sid] → call_sid c' = sid).
  { intros c' Hc'. by apply list_elem_of_singleton in Hc' as ->. }
  assert (Hnil : ∀ c' : ResourceCall, c' ∈ [] → call_sid c' = sid).
  { intros c' Hc'. by apply elem_of_nil in Hc'. }
  destruct (active_sessions bs !! sid) as [s|] eqn:Hs.
  - destruct (browser_client s) as [client|];
      [destruct (stop client) as [[| |]|]|]; simpl.
    all: split; [done|].
    all: split; [intros other Hne; by rewrite ?lookup_delete_ne|].
    all: intros c Hc; eapply Hcalls; [|exact Hc]; done.
  - simpl. split; [done|]. split.
    + intros other Hne. by rewrite lookup_delete_ne.
    + intros c Hc. by apply elem_of_nil in Hc.
Qed.

Lemma cleanup_session_frame (in_loop : bool) (sid : string) (force : bool)
    (bs : BrowserService) :
  let r := cleanup_session in_loop sid force bs in
  db_manager (service r) = db_manager bs
  ∧ (∀ other, other ≠ sid →
       active_sessions (service r) !! other = active_sessions bs !! other
       ∧ active_clients (service r) !! other = active_clients bs !! other)
  ∧ (∀ c, c ∈ calls r → call_sid c = sid).
Proof.
  unfold cleanup_session. destruct (negb force && is_protected bs sid).
  - simpl. split; [done|]. split; [done|]. intros c Hc. by apply elem_of_nil in Hc.
  - apply locked_cleanup_frame.
Qed.

(** A sweep over a list of ids leaves every id outside the list alone. *)
Lemma cleanup_each_frame (in_loop : bool) (sids : list string) (bs : BrowserService)
    (sid : string) :
  sid ∉ sids →
  let r := cleanup_each in_loop sids bs in
  active_sessions (sw_service r) !! sid = active_sessions bs !! sid
  ∧ active_clients (sw_service r) !! sid = active_clients bs !! sid
  ∧ (∀ c, c ∈ sw_calls r → call_sid c ≠ sid).
Proof.
  revert bs. induction sids as [|x rest IH]; intros bs Hnotin; simpl.
  - split; [done|]. split; [done|]. intros c Hc. by apply elem_of_nil in Hc.
  - apply not_elem_of_cons in Hnotin as [Hne Hrest].
    destruct (cleanup_session_frame in_loop x false bs) as (_ & Hother & Hcalls).
    destruct (Hother sid Hne) as [Hs Hc].
    destruct (returned (cleanup_session in_loop x false bs)); simpl.
    + destruct (IH (service (cleanup_session in_loop x false bs)) Hrest)
        as (IHs & IHc & IHcalls).
      split; [by rewrite IHs|]. split; [by rewrite IHc|].
      intros c Hin. apply elem_of_app in Hin as [Hin|Hin]; [|by apply IHcalls].
      rewrite (Hcalls c Hin). congruence.
    + split; [done|]. split; [done|].
      intros c Hin. rewrite (Hcalls c Hin). congruence.
Qed.

Lemma elem_of_expired_sessions (now : datetime) (bs : BrowserService) (sid : string) :
  sid ∈ expired_sessions now bs ↔
  ∃ s, active_sessions bs !! sid = Some s
       ∧ is_protected bs sid = false ∧ idle_too_long now s = true.
Proof.
  unfold expired_sessions. rewrite list_elem_of_omap. split.
  - intros ([k s] & Hin & Hsome). simpl in Hsome.
    apply elem_of_map_to_list in Hin.
    destruct (is_protected bs k) eqn:Hp; simpl in Hsome; [discriminate|].
    destruct (idle_too_long now s) eqn:Hidle; [|discriminate].
    injection Hsome as <-. by exists s.
  - intros (s & Hs & Hp & Hidle). exists (sid, s). split.
    + by apply elem_of_map_to_list.
    + simpl. by rewrite Hp, Hidle.
Qed.

Lemma idle_too_long_spec (now : datetime) (s : BrowserSession) :
  idle_too_long now s = true ↔ 1800000000 < now - last_accessed s.
Proof.
  unfold idle_too_long. rewrite bool_decide_eq_true.
  assert (H : (this (total_seconds (now - last_accessed s))
               == (now - last_accessed s) # 1000000)%Q) by apply Qred_correct.
  unfold Qclt. rewrite H. change (this (Z2Qc 1800)) with (1800 # 1)%Q.
  unfold Qlt. simpl. lia.
Qed.

Lemma is_protected_spec (bs : BrowserService) (sid : string) :
  is_protected bs sid = true ↔
  ∃ db order, db_manager bs = Some db ∧ reachable db = true
              ∧ get_order (orders db) sid = Some order
              ∧ Database.status order = REQUIRES_HUMAN.
Proof.
  unfold is_protected, db_get_order. split.
  - destruct (db_manager bs) as [db|]; [|discriminate].
    destruct (reachable db) eqn:Hr; [|discriminate].
    destruct (get_order (orders db) sid) as [order|] eqn:Ho; [|discriminate].
    intros Hst. apply OrderStatus_eqb_eq in Hst. by exists db, order.
  - intros (db & order & -> & -> & -> & ->). reflexivity.
Qed.


(** C10. [get_live_view_url] on a registered session stores the current
    time in its [last_accessed], whatever the browser client then
    answers. The sweep expires exactly the unprotected sessions last
    accessed more than 1800 seconds ago, so for 1800 seconds after the
    query the session is not expired and stays registered. *)
Theorem live_view_query_restarts_idle_clock (now : datetime) (sid : string)
    (expires : Z) (bs : BrowserService) (s : BrowserSession) :
  active_sessions bs !! sid = Some s →
  let bs' := (get_live_view_url now sid expires bs).1 in
  active_sessions bs' !! sid = Some (set_last_accessed now s)
  ∧ last_accessed (set_last_accessed now s) = now
  ∧ (∀ later x, x ∈ expired_sessions later bs' ↔
       ∃ sx, active_sessions bs' !! x = Some sx
             ∧ is_protected bs' x = false
             ∧ 1800000000 < later - last_accessed sx)
  ∧ (∀ in_loop later, later - now ≤ 1800000000 →
       (sid ∉ expired_sessions later bs')
       ∧ active_sessions (sw_service (cleanup_expired_sessions in_loop later bs')) !! sid
         = Some (set_last_accessed now s)).
Proof.
  intros Hs bs'.
  assert (Hbs' : active_sessions bs' !! sid = Some (set_last_accessed now s)).
  { unfold bs', get_live_view_url. rewrite Hs. simpl. by rewrite lookup_insert_eq. }
  split; [done|]. split; [done|]. split.
  - intros later x. rewrite elem_of_expired_sessions.
    split; intros (sx & H1 & H2 & H3); exists sx; split; try done; split; try done;
      by apply idle_too_long_spec.
  - intros in_loop later Hlater.
    assert (Hnot : sid ∉ expired_sessions later bs').
    { intros (sx & Hsx & _ & Hidle)%elem_of_expired_sessions.
      rewrite Hbs' in Hsx. injection Hsx as <-.
      apply idle_too_long_spec in Hidle. simpl in Hidle. lia. }
    split; [done|].
    destruct (cleanup_each_frame in_loop (expired_sessions later bs') bs' sid Hnot)
      as (Hkeep & _ & _).
    unfold cleanup_expired_sessions. by rewrite Hkeep.
Qed.

End SessionRegistry.

Section ForcedCleanup.

Import Database BrowserService Samples.

(** As long as the browser client's [stop()] comes back, by returning or
    by raising, a forced cleanup comes back too and the id is gone from
    both maps, whatever the Playwright resources do. *)
Lemma cleanup_session_force_removes (in_loop : bool) (sid : string) (bs : BrowserService) :
  (∀ s client, active_sessions bs !! sid = Some s →
     browser_client s = Some client → stop client ≠ Some NeverReturns) →
  let r := cleanup_session in_loop sid true bs in
  returned r = true
  ∧ active_sessions (service r) !! sid = None
  ∧ active_clients (service r) !! sid = None.
Proof.
  intros Hstop. unfold cleanup_session, locked_cleanup. simpl.
  destruct (active_sessions bs !! sid) as [s|] eqn:Hs.
  - destruct (browser_client s) as [client|] eqn:Hc;
      [destruct (stop client) as [[| |]|] eqn:Hst|]; simpl.
    all: try (by rewrite !lookup_delete_eq).
    exfalso. by eapply Hstop.
  - simpl. split; [done|]. split; [done|]. apply lookup_delete_eq.
Qed.

(** C2, where the code falls short of it. The call to the browser
    client's [stop()] is a plain synchronous call made under the registry
    lock, with no timeout of its own, and nothing bounds
    [cleanup_session] as a whole. With a client whose [stop()] never
    returns, a forced cleanup does not return and the handle stays in
    both maps. With a client whose [stop()] raises, the handle is removed
    but its status is left at "active", never set to "terminated". *)
Theorem cleanup_session_force_waits_on_client_stop :
  (let r := cleanup_session false "session-1" true (registry_with stuck_client) in
   returned r = false
   ∧ active_sessions (service r) !! "session-1"
     = Some (session_with stuck_client 0)
   ∧ active_clients (service r) !! "session-1" = Some stuck_client
   ∧ calls r = [ClientStop "session-1"])
  ∧ (let r := cleanup_session false "session-1" true (registry_with raising_client) in
     returned r = true
     ∧ active_sessions (service r) !! "session-1" = None
     ∧ active_clients (service r) !! "session-1" = None
     ∧ cleanup_errors r = [BrowserClientCleanup]
     ∧ (status <$> handle r) = Some "active").
Proof. vm_compute. repeat split. Qed.

End ForcedCleanup.

Section Resolution.

Import BrowserService Samples.

(** C8, as stated, fails on the service method: it has no bounds check. *)
Lemma change_browser_resolution_accepts_any_size :
  let before := registry_with plain_client in
  let '(after, result) :=
    BrowserService.change_browser_resolution 5 "session-1" 100 50 before in
  (resolution <$> active_sessions before !! "session-1") = Some (1280, 720)
  ∧ result = ResolutionChanged 100 50
  ∧ (resolution <$> active_sessions after !! "session-1") = Some (100, 50).
Proof. vm_compute. repeat split. Qed.

(** C8, as the code has it. The bounds (width 640 to 3840, height 480 to
    2160) are checked by the route handler of [app.py]: a request outside
    them is answered with an HTTP error (400 once the handler has reached
    the check) and the registry, so the stored resolution, is left as it
    was, the service not being called. The service method
    [change_browser_resolution] checks nothing: on a registered session
    it stores whatever width and height it is given, and it does so
    before the browser client is asked, hence also when the client then
    fails. *)
Theorem resolution_bounds_are_checked_by_the_route
    (importable config : bool) (now : datetime) (sid : string)
    (request : gmap string Z) (width height : Z) (bs : BrowserService) :
  request !! "width" = Some width →
  request !! "height" = Some height →
  (width < 640 ∨ 3840 < width ∨ height < 480 ∨ 2160 < height →
     ∃ code, App.change_browser_resolution importable config sid request bs
             = (bs, App.HTTPException code)
             ∧ (importable = true → code = 400))
  ∧ (∀ s, active_sessions bs !! sid = Some s →
       active_sessions
         (BrowserService.change_browser_resolution now sid width height bs).1 !! sid
       = Some (set_resolution width height now s)).
Proof.
  intros Hw Hh. split.
  - intros Hout. unfold App.change_browser_resolution. rewrite Hw, Hh.
    destruct importable; simpl; [|by exists 500].
    replace ((width <? 640) || (3840 <? width) || (height <? 480) || (2160 <? height))
      with true; [by exists 400|].
    symmetry. rewrite !orb_true_iff, !Z.ltb_lt. tauto.
  - intros s Hs. unfold BrowserService.change_browser_resolution. rewrite Hs.
    destruct (browser_client _) as [client|]; [destruct (set_viewport_size client) as [[|]|]|];
      simpl; by rewrite lookup_insert_eq.
Qed.

End Resolution.

(** ** The theorems at work on the sample data *)

Section Instances.

Import Database BrowserService Samples.

(** Two overlapping calls on three pending orders, at times 100 and 101:
    both return the URGENT order, and the table holds it with
    [started_at] 101. *)
Lemma get_next_order_overlapping_calls_claim_one_order_witness :
  select_next_pending three_pending = Some (new_order "order-1" PENDING URGENT 10)
  ∧ overlapping_get_next_order 100 101 three_pending
    = (Some (claim 100 (new_order "order-1" PENDING URGENT 10)),
       Some (claim 101 (new_order "order-1" PENDING URGENT 10)),
       [claim 101 (new_order "order-1" PENDING URGENT 10);
        new_order "order-2" PENDING NORMAL 20;
        new_order "order-3" PENDING HIGH 30])
  ∧ (∃ o1 o2 t2,
       overlapping_get_next_order 100 101 three_pending = (Some o1, Some o2, t2)
       ∧ id o1 = "order-1" ∧ id o2 = "order-1").
Proof.
  split; [reflexivity|]. split; [reflexivity|].
  destruct (get_next_order_overlapping_calls_claim_one_order 100 101 three_pending
              (new_order "order-1" PENDING URGENT 10) eq_refl)
    as (_ & o1 & o2 & t2 & Hcalls & Hid1 & Hid2 & _).
  exists o1, o2, t2. split; [exact Hcalls|]. split; [exact Hid1|exact Hid2].
Defined.

(** The retry path of [app.py] on an order that started at 10 and failed
    at 20: reset to PENDING at 30, claimed again at 40, completed at 50.
    The claim overwrites [started_at] and the last update overwrites
    [completed_at]. *)
Lemma timestamps_are_overwritten_on_retry :
  ∃ t1 o t2 t3,
    update_order_status 30 "order-1" PENDING no_fields [failed_order] = Some t1
    ∧ get_next_order 40 t1 = (Some o, t2)
    ∧ update_order_status 50 "order-1" COMPLETED no_fields t2 = Some t3
    ∧ started_at failed_order = Some 10
    ∧ (started_at <$> get_order t3 "order-1") = Some (Some 40)
    ∧ completed_at failed_order = Some 20
    ∧ (completed_at <$> get_order t3 "order-1") = Some (Some 50).
Proof. do 4 eexists. vm_compute. repeat split. Qed.

Lemma order_timestamps_follow_the_last_update_witness :
  update_order_status 50 "order-1" COMPLETED no_fields [failed_order]
    = Some [apply_status 50 COMPLETED no_fields failed_order]
  ∧ (∃ o', [apply_status 50 COMPLETED no_fields failed_order] !! 0%nat = Some o'
           ∧ started_at o' = Some 10 ∧ completed_at o' = Some 50)
  ∧ get_next_order 100 three_pending
    = (Some (claim 100 (new_order "order-1" PENDING URGENT 10)),
       update_where_id "order-1" (claim 100) three_pending)
  ∧ started_at (claim 100 (new_order "order-1" PENDING URGENT 10)) = Some 100.
Proof.
  destruct order_timestamps_follow_the_last_update as [Hupdate Hclaim].
  split; [reflexivity|]. split; [|split; [reflexivity|]].
  - destruct (Hupdate 50 "order-1" COMPLETED no_fields
                [failed_order] [apply_status 50 COMPLETED no_fields failed_order]
                eq_refl 0%nat failed_order eq_refl) as (o' & Ho' & Hrow).
    exists o'. split; [exact Ho'|].
    simpl in Hrow. destruct Hrow as (_ & Hstart & _ & Hdone).
    split; [apply Hstart; by eexists|exact Hdone].
  - exact (proj1 (Hclaim 100 three_pending
                    (update_where_id "order-1" (claim 100) three_pending)
                    (claim 100 (new_order "order-1" PENDING URGENT 10)) eq_refl)).
Defined.

(** One completed and one failed order: the reported rate is 50, not the
    fraction 1/2. *)
Lemma success_rate_is_a_percentage :
  success_rate one_completed_one_failed = Z2Qc 50
  ∧ success_rate one_completed_one_failed ≠
      (Z2Qc (status_count COMPLETED one_completed_one_failed)
       / Z2Qc (status_count COMPLETED one_completed_one_failed
               + status_count FAILED one_completed_one_failed))%Qc.
Proof.
  split.
  - apply Qc_is_canon. vm_compute. reflexivity.
  - intros H. apply (f_equal this) in H. vm_compute in H. discriminate H.
Qed.



Lemma process_order_rejects_second_call_witness :
  Agents.steps (Agents.new_agent Agents.StrandsAgent) busy_agent
  ∧ Agents._is_processing busy_agent = true
  ∧ Agents.process_order_enter busy_agent =
      (busy_agent,
       Some (Agents.mkResult false "failed"
               (Some "Another order is already being processed") "strands")).
Proof.
  assert (Hsteps : Agents.steps (Agents.new_agent Agents.StrandsAgent) busy_agent).
  { eapply Agents.steps_step; [apply Agents.steps_refl|].
    apply (Agents.step_enter (Agents.new_agent Agents.StrandsAgent)). }
  destruct (process_order_rejects_second_call Agents.StrandsAgent busy_agent Hsteps)
    as (_ & _ & Hreject & _).
  split; [exact Hsteps|]. split; [reflexivity|].
  exact (proj1 (Hreject eq_refl)).
Defined.



(** A session last accessed at time 0 is queried 5000 seconds later; a
    sweep 1800 seconds after the query keeps it, though without the
    query it would have been expired. *)
Lemma live_view_query_restarts_idle_clock_witness :
  active_sessions (registry_with plain_client) !! "session-1"
    = Some (session_with plain_client 0)
  ∧ "session-1" ∈ expired_sessions 6800000000 (registry_with plain_client)
  ∧ ("session-1" ∉
       expired_sessions 6800000000
         (get_live_view_url 5000000000 "session-1" 300 (registry_with plain_client)).1)
  ∧ active_sessions
      (sw_service
         (cleanup_expired_sessions false 6800000000
            (get_live_view_url 5000000000 "session-1" 300
               (registry_with plain_client)).1)) !! "session-1"
    = Some (session_with plain_client 5000000000).
Proof.
  destruct (live_view_query_restarts_idle_clock 5000000000 "session-1" 300
              (registry_with plain_client) (session_with plain_client 0) eq_refl)
    as (_ & _ & _ & Hsweep).
  assert (Hlate : 6800000000 - 5000000000 ≤ 1800000000) by lia.
  destruct (Hsweep false 6800000000 Hlate) as [Hnot Hkeep].
  split; [reflexivity|]. split; [|split; [exact Hnot|exact Hkeep]].
  apply elem_of_expired_sessions. exists (session_with plain_client 0).
  split; [reflexivity|]. split; [reflexivity|]. by vm_compute.
Defined.

Lemma resolution_bounds_are_checked_by_the_route_witness :
  small_request !! "width" = Some 100
  ∧ small_request !! "height" = Some 50
  ∧ App.change_browser_resolution true true "session-1" small_request
      (registry_with plain_client)
    = (registry_with plain_client, App.HTTPException 400)
  ∧ (resolution <$>
       active_sessions
         (BrowserService.change_browser_resolution 5 "session-1" 100 50
            (registry_with plain_client)).1 !! "session-1")
    = Some (100, 50).
Proof.
  destruct (resolution_bounds_are_checked_by_the_route true true 5 "session-1"
              small_request 100 50 (registry_with plain_client) eq_refl eq_refl)
    as (Hroute & Hservice).
  split; [reflexivity|]. split; [reflexivity|]. split.
  - destruct Hroute as (code & Hcode & H400); [lia|].
    rewrite Hcode. by rewrite (H400 eq_refl).
  - by rewrite (Hservice (session_with plain_client 0) eq_refl).
Defined.

End Instances.

(** * Further properties *)

(** ** The order store, operation by operation *)

Section StoreClaims.

Import Database.

Lemma claim_keeps_key (now : datetime) (p : OrderModel) :
  priority (claim now p) = priority p ∧ created_at (claim now p) = created_at p
  ∧ id (claim now p) = id p.
Proof. done. Qed.

(** A row still pending after a claim was pending, and the same, before. *)
Lemma pending_after_claim (now : datetime) (p : OrderModel) (t : table) (q : OrderModel) :
  q ∈ update_where_id (id p) (claim now) t → status q = PENDING →
  q ∈ t ∧ id q ≠ id p.
Proof.
  intros Hq Hst. pose proof (claimed_id_not_pending now p t q Hq Hst) as Hne.
  apply elem_of_update_where_id in Hq as (o & Ho & ->).
  destruct (String.eqb (id o) (id p)) eqn:E; [discriminate Hst|done].
Qed.

(** Orders leave the queue in sort order: of two claims made one after
    the other, the second order never outranks the first, and at equal
    priority it was not created earlier. *)
Theorem successive_claims_follow_priority (now1 now2 : datetime) (t t1 t2 : table)
    (o1 o2 : OrderModel) :
  get_next_order now1 t = (Some o1, t1) →
  get_next_order now2 t1 = (Some o2, t2) →
  priority_value (priority o2) ≤ priority_value (priority o1)
  ∧ (priority o2 = priority o1 → created_at o1 ≤ created_at o2)
  ∧ id o2 ≠ id o1.
Proof.
  intros H1 H2.
  apply get_next_order_Some in H1 as (p1 & Hin1 & Hpend1 & Hmin1 & -> & ->).
  apply get_next_order_Some in H2 as (p2 & Hin2 & Hpend2 & _ & -> & _).
  destruct (pending_after_claim now1 p1 t p2 Hin2 Hpend2) as [Hin Hne].
  specialize (Hmin1 p2 Hin Hpend2). apply goes_before_spec in Hmin1. simpl.
  split; [lia|]. split; [|done]. intros Hprio. rewrite Hprio in Hmin1. lia.
Qed.

Lemma cancel_after_claim (now now2 : datetime) (t t' : table) (o : OrderModel) :
  get_next_order now t = (Some o, t') →
  cancel_order now2 (id o) t' = (false, t')
  ∧ (∀ q, q ∈ t' → id q = id o → status q = PROCESSING).
Proof.
  intros Hnext.
  apply get_next_order_Some in Hnext as (p & Hin & Hpend & _ & -> & ->).
  assert (Hrows : ∀ q, q ∈ update_where_id (id p) (claim now) t →
                       id q = id p → status q = PROCESSING).
  { intros q Hq Hid. apply elem_of_update_where_id in Hq as (o & Ho & ->).
    destruct (String.eqb (id o) (id p)) eqn:E; [done|].
    by apply String.eqb_neq in E. }
  assert (Hfalse : (cancel_order now2 (id p)
                      (update_where_id (id p) (claim now) t)).1 = false).
  { apply not_true_is_false. intros Htrue.
    apply cancel_order_true_iff in Htrue as (q & Hq & Hid & Hst).
    rewrite (Hrows q Hq Hid) in Hst. discriminate Hst. }
  split; [|exact Hrows].
  pose proof (cancel_order_false_unchanged _ _ _ Hfalse) as Hsame.
  destruct (cancel_order now2 (id p) (update_where_id (id p) (claim now) t))
    as [r t''] eqn:Hc.
  simpl in *. by subst.
Qed.

(** Once claimed, an order is out of reach of the store-level cancel:
    [cancel_order] on its id returns false, changes nothing, and every
    row of that id stays PROCESSING. *)
Theorem claimed_order_cannot_be_cancelled (now now2 : datetime) (t t' : table)
    (o : OrderModel) :
  get_next_order now t = (Some o, t') →
  cancel_order now2 (id o) t' = (false, t')
  ∧ (∀ q, q ∈ t' → id q = id o → status q = PROCESSING).
Proof. apply cancel_after_claim. Qed.

Lemma fmap_update_where_id {B} (g : OrderModel → B) (oid : string)
    (f : OrderModel → OrderModel) (t : table) :
  (∀ o, g (f o) = g o) → g <$> update_where_id oid f t = g <$> t.
Proof.
  intros Hg. unfold update_where_id. rewrite <- list_fmap_compose.
  apply list_fmap_ext. intros i o _. simpl.
  by destruct (String.eqb (id o) oid).
Qed.

(** No update of the store moves, renames or reorders an order: a claim,
    a status update and a cancel each keep, row by row, the id, the
    priority and the creation time. *)
Theorem store_updates_keep_identity (now : datetime) (oid : string) (t : table) :
  (∀ o t', get_next_order now t = (o, t') →
     id <$> t' = id <$> t ∧ priority <$> t' = priority <$> t
     ∧ created_at <$> t' = created_at <$> t)
  ∧ (∀ st fs t', update_order_status now oid st fs t = Some t' →
       id <$> t' = id <$> t ∧ priority <$> t' = priority <$> t
       ∧ created_at <$> t' = created_at <$> t)
  ∧ (let t' := (cancel_order now oid t).2 in
     id <$> t' = id <$> t ∧ priority <$> t' = priority <$> t
     ∧ created_at <$> t' = created_at <$> t).
Proof.
  split; [|split].
  - intros o t'. unfold get_next_order.
    destruct (head (order_by (filter is_pending t))) as [p|]; intros [= <- <-];
      [|done].
    by rewrite !fmap_update_where_id.
  - intros st fs t'. unfold update_order_status.
    destruct (get_order t oid); [|discriminate]. intros [= <-].
    by rewrite !fmap_update_where_id.
  - unfold cancel_order. simpl. rewrite <- !list_fmap_compose.
    repeat split; apply list_fmap_ext; intros i o _; simpl;
      by destruct (cancel_matches oid o).
Qed.

Lemma get_order_cons (o : OrderModel) (t : table) (oid : string) :
  get_order (o :: t) oid = if String.eqb (id o) oid then Some o else get_order t oid.
Proof. reflexivity. Qed.

Lemma get_order_update_where_id (oid other : string) (f : OrderModel → OrderModel)
    (t : table) :
  (∀ o, id (f o) = id o) →
  get_order (update_where_id oid f t) other =
  (if String.eqb other oid then f <$> get_order t other else get_order t other).
Proof.
  intros Hid. induction t as [|o t IH].
  - by destruct (String.eqb other oid).
  - unfold update_where_id in *. rewrite fmap_cons, !get_order_cons, IH.
    destruct (String.eqb (id o) oid) eqn:E.
    + rewrite Hid. destruct (String.eqb (id o) other) eqn:E2; [|done].
      apply String.eqb_eq in E, E2. subst. by rewrite String.eqb_refl.
    + destruct (String.eqb (id o) other) eqn:E2; [|done].
      apply String.eqb_eq in E2. subst. by rewrite E.
Qed.

End StoreClaims.

Section StoreRows.

Import Database Store.

Lemma OrderStatus_eqb_neq (a b : OrderStatus) : OrderStatus_eqb a b = false ↔ a ≠ b.
Proof.
  rewrite <- OrderStatus_eqb_eq. destruct (OrderStatus_eqb a b); split; congruence.
Qed.

Lemma get_order_None (t : table) (oid : string) :
  get_order t oid = None ↔ ∀ o, o ∈ t → id o ≠ oid.
Proof.
  induction t as [|o t IH].
  - split; [intros _ o Ho; by apply elem_of_nil in Ho|done].
  - rewrite get_order_cons. destruct (String.eqb (id o) oid) eqn:E.
    + apply String.eqb_eq in E. split; [discriminate|].
      intros Hall. exfalso. apply (Hall o); [left|done].
    + apply String.eqb_neq in E. rewrite IH. split.
      * intros Hall o' [->|Ho']%elem_of_cons; [done|by apply Hall].
      * intros Hall o' Ho'. apply Hall. by right.
Qed.

Lemma get_order_filter (keep : OrderModel → bool) (t : table) (other : string) :
  (∀ o, o ∈ t → id o = other → keep o = true) →
  get_order (filter keep t) other = get_order t other.
Proof.
  induction t as [|o t IH]; intros Hkeep; [reflexivity|].
  rewrite filter_cons_bool, (get_order_cons o t).
  assert (IH' : get_order (filter keep t) other = get_order t other).
  { apply IH. intros o' Ho'. apply Hkeep. by right. }
  destruct (keep o) eqn:Ek.
  - by rewrite get_order_cons, IH'.
  - destruct (String.eqb (id o) other) eqn:E; [|exact IH'].
    apply String.eqb_eq in E. rewrite (Hkeep o) in Ek; [discriminate|left|done].
Qed.

Lemma filter_twice {A} (P : A → bool) (l : list A) :
  filter P (filter P l) = filter P l.
Proof.
  induction l as [|x l IH]; [reflexivity|].
  rewrite filter_cons_bool. destruct (P x) eqn:E; [|exact IH].
  by rewrite filter_cons_bool, E, IH.
Qed.

(** A status update is read back by [get_order]: the call raises exactly
    when no order has the id; otherwise the order then has the new
    status and update time, its priority and creation time are kept,
    each of the eight optional arguments (progress, current_step,
    order_confirmation_number, tracking_number, estimated_delivery,
    error_message, requires_human_review, session_id) is stored when it
    was given and keeps its old value when it was left out, and all
    other orders read as before. *)
Theorem update_order_status_is_read_back (now : datetime) (oid : string)
    (st : OrderStatus) (fs : StatusFields) (t : table) :
  (update_order_status now oid st fs t = None ↔ get_order t oid = None)
  ∧ (∀ o, get_order t oid = Some o →
       ∃ t' o', update_order_status now oid st fs t = Some t'
         ∧ get_order t' oid = Some o'
         ∧ id o' = oid ∧ status o' = st ∧ updated_at o' = now
         ∧ priority o' = priority o ∧ created_at o' = created_at o
         ∧ progress o' = if_given (f_progress fs) (progress o)
         ∧ current_step o' = if_given (f_current_step fs) (current_step o)
         ∧ order_confirmation_number o'
           = if_given (f_order_confirmation_number fs) (order_confirmation_number o)
         ∧ tracking_number o' = if_given (f_tracking_number fs) (tracking_number o)
         ∧ estimated_delivery o'
           = if_given (f_estimated_delivery fs) (estimated_delivery o)
         ∧ error_message o' = if_given (f_error_message fs) (error_message o)
         ∧ requires_human_review o'
           = if_given (f_requires_human_review fs) (requires_human_review o)
         ∧ session_id o' = if_given (f_session_id fs) (session_id o)
         ∧ (∀ other, other ≠ oid → get_order t' other = get_order t other))
  ∧ (∀ (A : Type) (v : A) (old : option A), if_given (Some v) old = Some v)
  ∧ (∀ (A : Type) (old : option A), if_given None old = old).
Proof.
  split; [|split; [|done]].
  - unfold update_order_status. destruct (get_order t oid); split; done.
  - intros o Ho. unfold update_order_status. rewrite Ho.
    eexists. exists (apply_status now st fs o). split; [reflexivity|].
    split.
    { rewrite get_order_update_where_id by done.
      by rewrite String.eqb_refl, Ho. }
    destruct (get_order_Some _ _ _ Ho) as [_ Hid].
    repeat (split; [done|]).
    intros other Hne. rewrite get_order_update_where_id by done.
    apply String.eqb_neq in Hne. by rewrite Hne.
Qed.

(** [delete_order] returns true exactly when some order had the id;
    afterwards no order has it, every other row is still there, and a
    second delete of the same id returns false and changes nothing. *)
Theorem delete_order_removes_the_order (oid : string) (t : table) :
  let '(deleted, t') := delete_order oid t in
  (deleted = true ↔ ∃ o, o ∈ t ∧ id o = oid)
  ∧ get_order t' oid = None
  ∧ (∀ o, o ∈ t' ↔ o ∈ t ∧ id o ≠ oid)
  ∧ (∀ other, other ≠ oid → get_order t' other = get_order t other)
  ∧ delete_order oid t' = (false, t').
Proof.
  unfold delete_order.
  set (keep := fun o : OrderModel => negb (String.eqb (id o) oid)).
  assert (Hkeep : ∀ o, o ∈ filter keep t ↔ o ∈ t ∧ id o ≠ oid).
  { intros o. rewrite list_elem_of_filter. unfold keep.
    rewrite Is_true_true, negb_true_iff, String.eqb_neq. tauto. }
  split; [|split; [|split; [|split]]].
  - rewrite filter_nonempty. split; intros (o & Ho & Hid); exists o; split; try done.
    + by apply String.eqb_eq.
    + by apply String.eqb_eq.
  - apply get_order_None. intros o Ho. by apply Hkeep in Ho as [_ ?].
  - exact Hkeep.
  - intros other Hne. apply get_order_filter. intros o _ Hid. unfold keep.
    apply negb_true_iff, String.eqb_neq. congruence.
  - f_equal; [|apply filter_twice].
    apply not_true_is_false. intros Htrue.
    apply filter_nonempty in Htrue as (o & Ho & Hid).
    apply Hkeep in Ho as [_ Hne]. by apply String.eqb_eq in Hid.
Qed.

Lemma status_count_cons (s : OrderStatus) (o : OrderModel) (t : table) :
  status_count s (o :: t) = (if has_status s o then 1 else 0) + status_count s t.
Proof.
  unfold status_count. rewrite filter_cons_bool.
  destruct (has_status s o); simpl length; lia.
Qed.

Lemma total_orders_length (t : table) : total_orders t = Z.of_nat (length t).
Proof.
  unfold total_orders, all_statuses. simpl.
  induction t as [|o t IH]; [reflexivity|].
  rewrite !status_count_cons. unfold has_status.
  destruct (status o); simpl OrderStatus_eqb; simpl length; lia.
Qed.

(** The per-status counts of [get_order_stats] add up to the number of
    orders: [total_orders] is the size of the table, and each count lies
    between 0 and it. *)
Theorem total_orders_counts_every_order (t : table) :
  total_orders t = Z.of_nat (length t)
  ∧ ∀ s, 0 ≤ status_count s t ≤ total_orders t.
Proof.
  split; [apply total_orders_length|].
  intros s. rewrite total_orders_length. unfold status_count.
  pose proof (length_filter (has_status s) t). lia.
Qed.

Lemma status_count_nonneg (s : OrderStatus) (t : table) : 0 ≤ status_count s t.
Proof. unfold status_count. lia. Qed.

Lemma length_filter_cons {A} (P : A → bool) (x : A) (l : list A) :
  Z.of_nat (length (filter P (x :: l)))
  = (if P x then 1 else 0) + Z.of_nat (length (filter P l)).
Proof. rewrite filter_cons_bool. destruct (P x); simpl length; lia. Qed.

Lemma status_count_without_finished (s : OrderStatus) (t : table) :
  status_count s (filter (fun o : OrderModel => negb (completed_or_failed o)) t)
  = match s with COMPLETED | FAILED => 0 | _ => status_count s t end.
Proof.
  induction t as [|o t IH]; [by destruct s|].
  rewrite filter_cons_bool, (status_count_cons s o t).
  destruct (completed_or_failed o) eqn:Ecf; simpl negb; cbv iota.
  - rewrite IH. unfold completed_or_failed, has_status in Ecf. unfold has_status.
    destruct s, (status o); simpl in *; try discriminate; lia.
  - rewrite status_count_cons, IH.
    unfold completed_or_failed, has_status in Ecf. unfold has_status.
    destruct s, (status o); simpl in *; try discriminate; lia.
Qed.

Lemma count_finished (t : table) :
  Z.of_nat (length (filter completed_or_failed t))
  = status_count COMPLETED t + status_count FAILED t.
Proof.
  induction t as [|o t IH]; [reflexivity|].
  rewrite length_filter_cons, !status_count_cons, IH.
  unfold completed_or_failed, has_status. destruct (status o); simpl; lia.
Qed.

Lemma no_completed_no_times (t : table) :
  (∀ o, o ∈ t → has_status COMPLETED o = false) →
  completed_orders_with_times t = [].
Proof.
  induction t as [|o t IH]; intros Hall; [reflexivity|].
  unfold completed_orders_with_times in *. rewrite omap_cons.
  rewrite (Hall o) by left. apply IH. intros o' Ho'. apply Hall. by right.
Qed.

(** [delete_completed_orders] deletes every COMPLETED and every FAILED
    order and nothing else, and returns how many it deleted; afterwards
    the statistics report no completed or failed order, a success rate
    of 0 and an average processing time of 0. *)
Theorem delete_completed_orders_clears_finished (t : table) :
  let '(deleted, t') := delete_completed_orders t in
  deleted = status_count COMPLETED t + status_count FAILED t
  ∧ Z.of_nat (length t') + deleted = Z.of_nat (length t)
  ∧ (∀ o, o ∈ t' ↔ o ∈ t ∧ status o ≠ COMPLETED ∧ status o ≠ FAILED)
  ∧ (∀ s, status_count s t' =
          match s with COMPLETED | FAILED => 0 | _ => status_count s t end)
  ∧ success_rate t' = 0%Qc
  ∧ avg_time t' = 0%Qc.
Proof.
  unfold delete_completed_orders.
  pose proof (status_count_without_finished) as Hcounts.
  split; [apply count_finished|].
  split; [|split; [|split; [intros s; apply Hcounts|split]]].
  - rewrite count_finished. rewrite <- (total_orders_length t).
    rewrite <- (total_orders_length (filter _ t)).
    unfold total_orders, all_statuses. simpl. rewrite !Hcounts. lia.
  - intros o. rewrite list_elem_of_filter.
    unfold completed_or_failed, has_status.
    rewrite Is_true_true, negb_true_iff, orb_false_iff, !OrderStatus_eqb_neq.
    tauto.
  - unfold success_rate. by rewrite !Hcounts.
  - unfold avg_time. rewrite no_completed_no_times; [done|].
    intros o Ho. apply list_elem_of_filter in Ho as [Hk _].
    apply Is_true_true, negb_true_iff, orb_false_iff in Hk. tauto.
Qed.

End StoreRows.

Section StoreHousekeeping.

Import Database Store.

(** [cleanup_old_orders], when the cutoff [days] days before now is a
    date Python can represent, deletes exactly the orders in a terminal
    status whose [completed_at] is set and lies before the cutoff, and
    returns their number; an order without [completed_at] is then never
    deleted, whatever its status and age. When the cutoff cannot be
    represented (beyond 999999999 days, or a date outside the years 1 to
    9999) the call raises: it returns no count and deletes nothing. A
    cutoff 3000000 days after 2023 is such a date. *)
Theorem cleanup_old_orders_needs_completed_at (now : datetime) (days : Z) (t : table) :
  (cutoff_representable now days = true →
     ∃ deleted t', cleanup_old_orders now days t = (Some deleted, t')
       ∧ Z.of_nat (length t') + deleted = Z.of_nat (length t)
       ∧ (∀ o, o ∈ t' ↔
            o ∈ t ∧ ¬ (is_terminal (status o) = true
                       ∧ ∃ c, completed_at o = Some c ∧ c < now - days * 86400000000))
       ∧ (∀ o, o ∈ t → completed_at o = None → o ∈ t'))
  ∧ (cutoff_representable now days = false →
       cleanup_old_orders now days t = (None, t))
  ∧ (cutoff_representable now days = true ↔
       -999999999 ≤ days ≤ 999999999
       ∧ -62135596800000000 ≤ now - days * 86400000000 ≤ 253402300799999999)
  ∧ cleanup_old_orders 1700000000000000 (-3000000) t = (None, t).
Proof.
  split; [|split; [|split]].
  2:{ intros Hno. unfold cleanup_old_orders. by rewrite Hno. }
  2:{ unfold cutoff_representable, timedelta_representable, in_datetime_range,
        timedelta_days, datetime_min, datetime_max.
      rewrite !andb_true_iff, !Z.leb_le. tauto. }
  2:{ reflexivity. }
  intros Hyes. unfold cleanup_old_orders. rewrite Hyes. unfold timedelta_days.
  set (old := old_and_finished (now - days * 86400000000)).
  assert (Hold : ∀ o, old o = true ↔
            is_terminal (status o) = true
            ∧ ∃ c, completed_at o = Some c ∧ c < now - days * 86400000000).
  { intros o. unfold old, old_and_finished. rewrite andb_true_iff.
    destruct (completed_at o) as [c|].
    - rewrite Z.ltb_lt. split.
      + intros [? ?]. split; [done|]. by exists c.
      + intros [? (c' & [= <-] & ?)]. done.
    - split; [intros [_ [=]]|intros [_ (c & [=] & _)]]. }
  assert (Hin : ∀ o, o ∈ filter (fun o => negb (old o)) t ↔ o ∈ t ∧ ¬ (old o = true)).
  { intros o. rewrite list_elem_of_filter, Is_true_true, negb_true_iff.
    destruct (old o); split; intros [? ?]; split; congruence. }
  eexists _, _. split; [reflexivity|]. split; [|split].
  - clear Hold Hin Hyes. induction t as [|o t IH]; [reflexivity|].
    rewrite !filter_cons_bool. destruct (old o); simpl negb; cbv iota;
      simpl length; lia.
  - intros o. rewrite Hin, Hold. done.
  - intros o Ho Hnone. apply Hin. split; [done|].
    rewrite Hold. intros [_ (c & Hc & _)]. congruence.
Qed.

(** An order cancelled while still pending never had [completed_at]
    set, and [cancel_order] does not set it: no run of
    [cleanup_old_orders] ever deletes it. *)
Theorem cancelled_pending_order_is_never_cleaned_up (now later : datetime) (days : Z)
    (oid : string) (t : table) (o : OrderModel) :
  o ∈ t → id o = oid → status o = PENDING → completed_at o = None →
  let cancelled := (cancel_order now oid t).2 in
  cancel_row now o ∈ cancelled
  ∧ status (cancel_row now o) = CANCELLED
  ∧ cancel_row now o ∈ (cleanup_old_orders later days cancelled).2.
Proof.
  intros Ho Hid Hst Hnone cancelled.
  assert (Hin : cancel_row now o ∈ cancelled).
  { unfold cancelled, cancel_order. simpl. apply list_elem_of_fmap.
    exists o. split; [|done].
    assert (Hm : cancel_matches oid o = true) by by apply cancel_matches_spec.
    by rewrite Hm. }
  split; [done|]. split; [done|].
  unfold cleanup_old_orders. destruct (cutoff_representable later days); [|done].
  simpl. apply list_elem_of_filter. split; [|done].
  unfold old_and_finished. simpl. by rewrite Hnone.
Qed.

Lemma existsb_get_order (t : table) (oid : string) :
  existsb (fun o => String.eqb (id o) oid) t = false ↔ get_order t oid = None.
Proof.
  induction t as [|o t IH]; [done|].
  simpl existsb. rewrite get_order_cons.
  destruct (String.eqb (id o) oid); simpl; [split; discriminate|exact IH].
Qed.

Lemma get_order_app (t1 t2 : table) (oid : string) :
  get_order (t1 ++ t2) oid =
  match get_order t1 oid with Some o => Some o | None => get_order t2 oid end.
Proof.
  induction t1 as [|o t1 IH]; [reflexivity|].
  change ((o :: t1) ++ t2) with (o :: (t1 ++ t2)). rewrite !get_order_cons.
  by destruct (String.eqb (id o) oid).
Qed.

(** [create_order] followed by [get_order]: with an id no order has yet,
    the new order is stored and read back PENDING, with progress 0, no
    start or completion time and no review flag; every order that was
    there reads as before. With an id already in use nothing is stored. *)
Theorem create_order_is_read_back (new_id : string) (created updated : datetime)
    (p : OrderPriority) (t : table) :
  (get_order t new_id = None →
     ∃ t', create_order new_id created updated p t = Some (new_id, t')
       ∧ (∃ o, get_order t' new_id = Some o
            ∧ status o = PENDING ∧ progress o = Some 0 ∧ priority o = p
            ∧ created_at o = created ∧ started_at o = None
            ∧ completed_at o = None ∧ requires_human_review o = Some false)
       ∧ (∀ other o, get_order t other = Some o → get_order t' other = Some o)
       ∧ length t' = S (length t))
  ∧ (is_Some (get_order t new_id) →
       create_order new_id created updated p t = None).
Proof.
  unfold create_order. split.
  - intros Hfresh. rewrite (proj2 (existsb_get_order t new_id) Hfresh).
    eexists. split; [reflexivity|]. split; [|split].
    + exists (new_row new_id created updated p).
      rewrite get_order_app, Hfresh, get_order_cons. simpl.
      by rewrite String.eqb_refl.
    + intros other o Ho. by rewrite get_order_app, Ho.
    + rewrite length_app. simpl. lia.
  - intros [o Ho].
    destruct (existsb (fun o => String.eqb (id o) new_id) t) eqn:E; [done|].
    apply existsb_get_order in E. congruence.
Qed.

End StoreHousekeeping.

Section StoreListing.

Import Database Store.

Lemma insert_by_perm {A} (before : A → A → bool) (x : A) (l : list A) :
  insert_by before x l ≡ₚ x :: l.
Proof.
  induction l as [|y l IH]; [reflexivity|]. simpl.
  destruct (before x y); [reflexivity|]. rewrite IH. apply Permutation_swap.
Qed.

Lemma sort_by_perm {A} (before : A → A → bool) (l : list A) :
  sort_by before l ≡ₚ l.
Proof.
  induction l as [|x l IH]; [reflexivity|].
  unfold sort_by in *. simpl. by rewrite insert_by_perm, IH.
Qed.

Lemma insert_by_sorted {A} (before : A → A → bool) (x : A) (l : list A) :
  (∀ a b, before a b = false → before b a = true) →
  (∀ a b c, before a b = true → before b c = true → before a c = true) →
  StronglySorted (fun a b => before a b = true) l →
  StronglySorted (fun a b => before a b = true) (insert_by before x l).
Proof.
  intros Htotal Htrans Hsorted. induction Hsorted as [|y l Hsorted IH Hy].
  - simpl. constructor; [constructor|constructor].
  - simpl. destruct (before x y) eqn:Exy.
    + constructor; [by constructor|]. constructor; [done|].
      eapply Forall_impl; [exact Hy|]. intros z Hz. by eapply Htrans.
    + constructor; [exact IH|].
      rewrite insert_by_perm. constructor; [by apply Htotal|done].
Qed.

Lemma sort_by_sorted {A} (before : A → A → bool) (l : list A) :
  (∀ a b, before a b = false → before b a = true) →
  (∀ a b c, before a b = true → before b c = true → before a c = true) →
  StronglySorted (fun a b => before a b = true) (sort_by before l).
Proof.
  intros Htotal Htrans. induction l as [|x l IH]; [constructor|].
  unfold sort_by in *. simpl. by apply insert_by_sorted.
Qed.

Lemma strongly_sorted_weaken {A} (R1 R2 : A → A → Prop) (l : list A) :
  (∀ a b, R1 a b → R2 a b) → StronglySorted R1 l → StronglySorted R2 l.
Proof.
  intros Himpl Hsorted. induction Hsorted as [|x l Hsorted IH Hx]; constructor.
  - exact IH.
  - eapply Forall_impl; [exact Hx|]. intros y. apply Himpl.
Qed.

Lemma status_value_inj (a b : OrderStatus) : status_value a = status_value b → a = b.
Proof. destruct a, b; simpl; intros H; try reflexivity; discriminate H. Qed.

(** [get_all_orders] returns each selected order once, newest first.
    Without a status filter, or with an empty one, every order is
    selected; with a filter, exactly the orders whose status value is in
    it, so the filter ["pending"] gives exactly the PENDING orders. *)
Theorem get_all_orders_lists_newest_first (status_filter : option (list string))
    (t : table) :
  get_all_orders status_filter t ≡ₚ
    match status_filter with
    | Some (s :: more) => filter (status_in (s :: more)) t
    | _ => t
    end
  ∧ StronglySorted (fun a b => created_at b ≤ created_at a)
      (get_all_orders status_filter t)
  ∧ (∀ o, o ∈ get_all_orders status_filter t ↔
       o ∈ t ∧ match status_filter with
               | Some (s :: more) => status_value (status o) ∈ s :: more
               | _ => True
               end)
  ∧ (∀ st o, o ∈ get_all_orders (Some [status_value st]) t ↔ o ∈ t ∧ status o = st).
Proof.
  assert (Hperm : get_all_orders status_filter t ≡ₚ
            match status_filter with
            | Some (s :: more) => filter (status_in (s :: more)) t
            | _ => t
            end).
  { unfold get_all_orders. rewrite sort_by_perm. by destruct status_filter as [[|]|]. }
  assert (Hmem : ∀ f o, o ∈ get_all_orders f t ↔
            o ∈ t ∧ match f with
                    | Some (s :: more) => status_value (status o) ∈ s :: more
                    | _ => True
                    end).
  { intros f o. unfold get_all_orders. rewrite sort_by_perm.
    destruct f as [[|s more]|]; [tauto| |tauto].
    rewrite list_elem_of_filter. unfold status_in.
    rewrite Is_true_true, bool_decide_eq_true. tauto. }
  split; [exact Hperm|]. split; [|split; [apply Hmem|]].
  - unfold get_all_orders.
    eapply strongly_sorted_weaken; [|apply sort_by_sorted].
    + intros a b Hab. unfold newer_first in Hab. by apply Z.leb_le in Hab.
    + intros a b Hab. unfold newer_first in *. apply Z.leb_le.
      apply Z.leb_gt in Hab. lia.
    + intros a b c. unfold newer_first. rewrite !Z.leb_le. lia.
  - intros st o. rewrite Hmem. rewrite list_elem_of_singleton.
    split; intros [? Hst]; split; try done.
    + by apply status_value_inj.
    + by rewrite Hst.
Qed.

End StoreListing.

(** ** The scheduler, operation by operation *)

Section SchedulerFacts.

Import Database Store OrderQueue Scheduler.

(** Whatever the system configuration holds, and also when it cannot be
    read, the queue ends up with an order timeout of 1800 seconds, a
    retry delay of 60 seconds and a queue ceiling of 500 orders: only
    [max_concurrent] follows the configuration, with 5 as its default. *)
Theorem queue_settings_follow_only_max_concurrent (system_config : option (gmap string Z)) :
  let settings := _load_queue_settings system_config in
  s_order_timeout settings = 1800
  ∧ s_retry_delay settings = 60
  ∧ s_max_queue_size settings = 500
  ∧ s_max_concurrent settings =
      match system_config with
      | Some config =>
          match config !! "max_concurrent_orders" with Some v => v | None => 5 end
      | None => 5
      end.
Proof.
  destruct system_config as [config|]; [|done].
  unfold _load_queue_settings, get_default. simpl.
  rewrite lookup_insert_eq.
  rewrite !lookup_insert_ne by done.
  rewrite lookup_singleton_eq, !lookup_singleton_ne by done.
  done.
Qed.

Lemma status_in_pending (o : OrderModel) : status_in ["pending"] o = is_pending o.
Proof.
  unfold status_in, is_pending. by destruct (Database.status o).
Qed.

Lemma filter_status_in_pending (t : table) :
  filter is_pending (filter (status_in ["pending"]) t) = filter is_pending t.
Proof.
  induction t as [|o t IH]; [reflexivity|].
  rewrite (filter_cons_bool (status_in ["pending"]) o t).
  rewrite (filter_cons_bool is_pending o t), status_in_pending.
  destruct (is_pending o) eqn:E; [|exact IH].
  by rewrite filter_cons_bool, E, IH.
Qed.

Lemma pending_count_spec (t : table) : pending_count t = status_count PENDING t.
Proof.
  unfold pending_count, status_count, get_all_orders.
  rewrite sort_by_perm, filter_status_in_pending. reflexivity.
Qed.

Lemma status_count_app (s : OrderStatus) (t1 t2 : table) :
  status_count s (t1 ++ t2) = status_count s t1 + status_count s t2.
Proof.
  unfold status_count. rewrite filter_app, length_app. lia.
Qed.

(** [add_order] stores an order only when the retailer has at least one
    URL, the automation method is "nova_act" or "strands", and fewer
    than [max_queue_size] orders are pending; each failure names its
    cause. On success exactly one PENDING order with progress 0 is added
    under the returned id, the pending count rises by one, and the task
    map and the queue status are untouched. *)
Theorem add_order_validates_then_stores (retailer_urls : list string)
    (automation_method : string) (max_queue_size : Z) (new_id : string)
    (created updated : datetime) (p : OrderPriority) (q : OrderQueue) :
  match add_order retailer_urls automation_method max_queue_size new_id
          created updated p q with
  | inl RetailerNotConfigured => retailer_urls = []
  | inl InvalidAutomationMethod =>
      automation_method ≠ "nova_act" ∧ automation_method ≠ "strands"
  | inl QueueFull => max_queue_size ≤ status_count PENDING (db_manager q)
  | inl CommitFailed => is_Some (get_order (db_manager q) new_id)
  | inr (order_id, q') =>
      order_id = new_id
      ∧ retailer_urls ≠ []
      ∧ (automation_method = "nova_act" ∨ automation_method = "strands")
      ∧ status_count PENDING (db_manager q) < max_queue_size
      ∧ (∃ o, get_order (db_manager q') new_id = Some o
              ∧ Database.status o = PENDING ∧ progress o = Some 0 ∧ priority o = p)
      ∧ status_count PENDING (db_manager q') = status_count PENDING (db_manager q) + 1
      ∧ length (db_manager q') = S (length (db_manager q))
      ∧ processing_orders q' = processing_orders q
      ∧ OrderQueue.status q' = OrderQueue.status q
  end.
Proof.
  unfold add_order. destruct retailer_urls as [|url urls]; [done|].
  assert (Hmethod : match AutomationMethod_of automation_method with
                    | Some _ => automation_method = "nova_act"
                                ∨ automation_method = "strands"
                    | None => automation_method ≠ "nova_act"
                              ∧ automation_method ≠ "strands"
                    end).
  { unfold AutomationMethod_of.
    destruct (String.eqb automation_method "nova_act") eqn:E1.
    - left. by apply String.eqb_eq.
    - destruct (String.eqb automation_method "strands") eqn:E2.
      + right. by apply String.eqb_eq.
      + split; by apply String.eqb_neq. }
  destruct (AutomationMethod_of automation_method) as [method|]; [|exact Hmethod].
  rewrite pending_count_spec.
  destruct (max_queue_size <=? status_count PENDING (db_manager q)) eqn:Efull;
    [by apply Z.leb_le in Efull|apply Z.leb_gt in Efull].
  unfold create_order.
  destruct (existsb (fun o => String.eqb (id o) new_id) (db_manager q)) eqn:Eused.
  - destruct (get_order (db_manager q) new_id) as [existing|] eqn:Hget; [by eexists|].
    apply existsb_get_order in Hget. congruence.
  - apply existsb_get_order in Eused. simpl.
    split; [done|]. split; [done|]. split; [exact Hmethod|]. split; [lia|].
    split; [|split; [|split; [|done]]].
    + exists (new_row new_id created updated p).
      rewrite get_order_app, Eused, get_order_cons. simpl.
      by rewrite String.eqb_refl.
    + rewrite status_count_app. unfold status_count at 2. simpl. lia.
    + rewrite length_app. simpl. lia.
Qed.

(** Every state the queue can be in while STOPPED has an empty task map. *)
Lemma stopped_means_idle (db : table) (ceiling : Z) (q : OrderQueue) :
  steps (init db ceiling) q →
  OrderQueue.status q = STOPPED → processing_orders q = ∅.
Proof.
  intros Hsteps. remember (init db ceiling) as q0 eqn:Hq0.
  induction Hsteps as [|q1 q2 q3 Hsteps IH Hstep]; [by subst|].
  specialize (IH Hq0).
  destruct Hstep as [now q Hshut|q|oid q|oid q|now oid q|oid q|c q|q|q|q|q].
  - unfold dispatch. destruct (can_dispatch q) eqn:Hcan; [|exact IH].
    apply can_dispatch_spec in Hcan as [Hrun _].
    destruct (get_next_order now (db_manager q)) as [[o|] db']; [|exact IH].
    simpl. intros Hst. congruence.
  - destruct (cleanup_completed_tasks_shrinks q) as (_ & _ & _ & Hstatus & Hsub).
    rewrite Hstatus. intros Hst. apply map_empty. intros k.
    destruct (processing_orders (_cleanup_completed_tasks q).1 !! k) as [task|] eqn:Hk;
      [|done].
    apply Hsub in Hk. rewrite (IH Hst) in Hk. by rewrite lookup_empty in Hk.
  - simpl. intros Hst. rewrite (IH Hst). apply alter_empty.
  - simpl. intros Hst. rewrite (IH Hst). apply alter_empty.
  - unfold cancel_order.
    destruct (processing_orders q !! oid) eqn:Hl;
      destruct (Database.cancel_order now oid (db_manager q)); simpl; intros Hst.
    + rewrite (IH Hst). apply delete_empty.
    + exact (IH Hst).
  - simpl. intros Hst. rewrite (IH Hst). apply delete_empty.
  - simpl. exact IH.
  - unfold pause. destruct (OrderQueue.status q) eqn:Hst; simpl;
      rewrite ?Hst; first [exact IH | intros [=]].
  - unfold resume. destruct (OrderQueue.status q) eqn:Hst; simpl;
      rewrite ?Hst; first [exact IH | intros [=]].
  - unfold start. destruct (OrderQueue.status q) eqn:Hst; simpl;
      rewrite ?Hst; first [exact IH | intros [=]].
  - unfold stop. destruct (OrderQueue.status q) eqn:Hst; simpl;
      rewrite ?Hst; first [exact IH | done].
Qed.

(** [stop] leaves the queue STOPPED with an empty task map and the store
    untouched, from every state the queue can reach, and calling it
    again changes nothing. *)
Theorem stop_empties_the_task_map (db : table) (ceiling : Z) (q : OrderQueue) :
  steps (init db ceiling) q →
  OrderQueue.status (stop q) = STOPPED
  ∧ processing_orders (stop q) = ∅
  ∧ db_manager (stop q) = db_manager q
  ∧ stop (stop q) = stop q.
Proof.
  intros Hsteps. pose proof (stopped_means_idle db ceiling q Hsteps) as Hidle.
  unfold stop. destruct (OrderQueue.status q) eqn:Hst; simpl; rewrite ?Hst; simpl.
  - done.
  - done.
  - split; [done|]. split; [by apply Hidle|]. done.
Qed.

(** One whole turn of the loop. When no task in the map ended by
    cancellation, the sweep goes through: afterwards only running tasks
    are left in the map, and the sweep, run again, removes nothing more.
    When a task that ended by cancellation is in the map, awaiting it
    raises [CancelledError]: the sweep removes nothing, finished and
    cancelled tasks stay in the map, and the loop ends. Either way every
    task that was running still is, and the store is as the dispatch
    left it. *)
Theorem loop_turn_keeps_running_tasks_only (now : datetime) (q : OrderQueue) :
  ((∀ k, processing_orders (dispatch now q) !! k ≠ Some TaskCancelled) →
     (loop_turn now q).2 = Swept
     ∧ (∀ k task, processing_orders (loop_turn now q).1 !! k = Some task →
          task = TaskRunning)
     ∧ (∀ k, processing_orders (dispatch now q) !! k = Some TaskFinished →
          processing_orders (loop_turn now q).1 !! k = None)
     ∧ _cleanup_completed_tasks (loop_turn now q).1 = ((loop_turn now q).1, Swept))
  ∧ (∀ k, processing_orders (dispatch now q) !! k = Some TaskCancelled →
       loop_turn now q = (dispatch now q, RaisedCancelledError))
  ∧ (∀ k, processing_orders q !! k = Some TaskRunning →
       processing_orders (loop_turn now q).1 !! k = Some TaskRunning)
  ∧ db_manager (loop_turn now q).1 = db_manager (dispatch now q).
Proof.
  unfold loop_turn. split; [|split; [|split]].
  - intros Hnone. apply (proj2 (sweep_outcome _)) in Hnone.
    unfold _cleanup_completed_tasks. rewrite Hnone. simpl.
    split; [done|]. split; [|split].
    + intros k task Hk. apply map_lookup_filter_Some in Hk as [_ Hdone].
      simpl in Hdone. by destruct task.
    + intros k Hk. apply map_lookup_filter_None. right. intros task Hk'.
      simpl. rewrite Hk in Hk'. by injection Hk' as <-.
    + replace (forallb _ _) with true.
      * f_equal. f_equal. apply map_eq. intros k. apply option_eq. intros task.
        rewrite !map_lookup_filter_Some. tauto.
      * symmetry. apply sweep_outcome. simpl. intros k Hk.
        apply map_lookup_filter_Some in Hk as [_ Hdone]. done.
  - intros k Hk. by apply (sweep_raises _ k).
  - intros k Hk.
    assert (Hkept : processing_orders (dispatch now q) !! k = Some TaskRunning).
    { unfold dispatch. destruct (can_dispatch q); [|done].
      destruct (get_next_order now (db_manager q)) as [[o|] db']; [|done].
      simpl. destruct (decide (id o = k)) as [->|Hne].
      - by rewrite lookup_insert_eq.
      - by rewrite lookup_insert_ne. }
    unfold _cleanup_completed_tasks. destruct (forallb _ _); simpl; [|done].
    apply map_lookup_filter_Some. by split.
  - by destruct (cleanup_completed_tasks_shrinks (dispatch now q)) as (_ & _ & Hdb & _).
Qed.

(** The order a turn of the loop has just dispatched can no longer be
    cancelled in the store: the queue's [cancel_order] cancels and
    awaits its task and drops it from the map, but returns false, and
    the order stays PROCESSING. *)
Theorem cancelling_a_dispatched_order (now now2 : datetime) (q : OrderQueue)
    (o : OrderModel) (db' : table) :
  can_dispatch q = true →
  get_next_order now (db_manager q) = (Some o, db') →
  let '(result, q', events) := OrderQueue.cancel_order now2 (id o) (dispatch now q) in
  result = false
  ∧ events = [TaskCancel (id o); TaskAwait (id o); StoreCancel (id o)]
  ∧ processing_orders q' !! id o = None
  ∧ db_manager q' = db'
  ∧ (∀ row, row ∈ db_manager q' → id row = id o →
       Database.status row = PROCESSING).
Proof.
  intros Hcan Hnext.
  destruct (cancel_after_claim now now2 _ _ _ Hnext) as [Hcancel Hrows].
  unfold dispatch. rewrite Hcan, Hnext.
  unfold OrderQueue.cancel_order.
  cbn [processing_orders db_manager]. rewrite lookup_insert_eq, Hcancel. simpl.
  split; [done|]. split; [done|]. split; [apply lookup_delete_eq|]. split; done.
Qed.

End SchedulerFacts.

(** ** The retry route *)

Section RetryRoute.

Import Database Routes.

Lemma pending_row_is_claimed (now : datetime) (t : table) (o : OrderModel) :
  o ∈ t → status o = PENDING → is_Some (get_next_order now t).1.
Proof.
  intros Ho Hst. destruct (get_next_order now t) as [[claimed|] t'] eqn:Hnext.
  - by eexists.
  - apply get_next_order_None in Hnext as [_ Hnone]. by destruct (Hnone o Ho).
Qed.

(** [retry_order] answers 404 for an unknown order and 400 for an order
    that is neither FAILED nor CANCELLED, leaving the store alone. A
    FAILED or CANCELLED order is put back to PENDING with its old
    [started_at] and [completed_at] still in place, so that the next
    [get_next_order] finds an order to claim; the handler then answers
    500, for it reads a method [process_order] the queue does not have. *)
Theorem retry_order_requeues_failed_orders (now : datetime) (oid : string) (t : table) :
  match get_order t oid with
  | None => retry_order now oid t = (t, HTTPException 404)
  | Some o =>
      if is_terminal (status o) && negb (OrderStatus_eqb (status o) COMPLETED) then
        ∃ t' o', retry_order now oid t = (t', HTTPException 500)
          ∧ get_order t' oid = Some o'
          ∧ status o' = PENDING
          ∧ started_at o' = started_at o
          ∧ completed_at o' = completed_at o
          ∧ (∀ later, is_Some (get_next_order later t').1)
      else retry_order now oid t = (t, HTTPException 400)
  end.
Proof.
  destruct (get_order t oid) as [o|] eqn:Ho; unfold retry_order; rewrite Ho; [|done].
  set (t' := update_where_id oid (apply_status now PENDING no_fields) t).
  assert (Hupd : update_order_status now oid PENDING no_fields t = Some t').
  { unfold update_order_status. by rewrite Ho. }
  assert (Hget : get_order t' oid = Some (apply_status now PENDING no_fields o)).
  { unfold t'. rewrite get_order_update_where_id by done.
    by rewrite String.eqb_refl, Ho. }
  destruct (status o) eqn:Hso; simpl; try done.
  all: rewrite Hupd; exists t', (apply_status now PENDING no_fields o).
  all: split; [done|]; split; [done|]; split; [done|].
  all: split; [done|]; split; [done|].
  all: intros later;
       apply (pending_row_is_claimed later t' (apply_status now PENDING no_fields o));
       [|reflexivity].
  all: by apply get_order_Some in Hget as [? _].
Qed.

End RetryRoute.

(** ** The session registry, operation by operation *)

Section RegistrySweeps.

Import Database BrowserService Registry.

(** What a cleanup without [force] leaves, when it comes back. *)
Lemma cleanup_session_unforced (in_loop : bool) (sid : string) (bs : BrowserService) :
  no_stuck_client bs →
  let r := cleanup_session in_loop sid false bs in
  returned r = true
  ∧ db_manager (service r) = db_manager bs
  ∧ active_sessions (service r) =
      (if is_protected bs sid then active_sessions bs
       else delete sid (active_sessions bs))
  ∧ active_clients (service r) =
      (if is_protected bs sid then active_clients bs
       else delete sid (active_clients bs)).
Proof.
  intros Hstuck. unfold cleanup_session. simpl.
  destruct (is_protected bs sid); [done|].
  unfold locked_cleanup.
  destruct (active_sessions bs !! sid) as [s|] eqn:Hs.
  - destruct (browser_client s) as [client|] eqn:Hc;
      [destruct (stop client) as [[| |]|] eqn:Hst|]; simpl; try done.
    exfalso. by eapply Hstuck.
  - simpl. split; [done|]. split; [done|]. split; [|done].
    symmetry. by apply delete_id.
Qed.

Lemma is_protected_same_store (bs bs' : BrowserService) (sid : string) :
  db_manager bs' = db_manager bs → is_protected bs' sid = is_protected bs sid.
Proof. unfold is_protected. by intros ->. Qed.

Lemma sweep_step {V} (m : gmap string V) (x : string) (rest : list string)
    (sid : string) (px psid : bool) :
  (sid = x → psid = px) →
  (if bool_decide (sid ∈ rest) && negb psid then None
   else (if px then m else delete x m) !! sid)
  = (if bool_decide (sid ∈ x :: rest) && negb psid then None else m !! sid).
Proof.
  intros Hsame. destruct (decide (sid = x)) as [->|Hne].
  - rewrite (Hsame eq_refl).
    rewrite (bool_decide_eq_true_2 (x ∈ x :: rest)) by left.
    destruct px; simpl; rewrite ?andb_false_r, ?andb_true_r; [done|].
    destruct (bool_decide (x ∈ rest)); [done|]. apply lookup_delete_eq.
  - assert (Hdec : bool_decide (sid ∈ x :: rest) = bool_decide (sid ∈ rest)).
    { apply bool_decide_ext. rewrite elem_of_cons. tauto. }
    rewrite Hdec. destruct (bool_decide (sid ∈ rest) && negb psid); [done|].
    destruct px; [done|]. by apply lookup_delete_ne.
Qed.

(** The sessions and clients a run of cleanups leaves, id by id. *)
Lemma cleanup_each_unforced (in_loop : bool) (sids : list string) (bs : BrowserService) :
  no_stuck_client bs →
  let r := cleanup_each in_loop sids bs in
  sw_returned r = true
  ∧ db_manager (sw_service r) = db_manager bs
  ∧ (∀ sid, active_sessions (sw_service r) !! sid =
       if bool_decide (sid ∈ sids) && negb (is_protected bs sid)
       then None else active_sessions bs !! sid)
  ∧ (∀ sid, active_clients (sw_service r) !! sid =
       if bool_decide (sid ∈ sids) && negb (is_protected bs sid)
       then None else active_clients bs !! sid).
Proof.
  revert bs. induction sids as [|x rest IH]; intros bs Hstuck.
  - simpl. done.
  - destruct (cleanup_session_unforced in_loop x bs Hstuck) as (Hret & Hdb & Hs & Hc).
    simpl. rewrite Hret.
    set (bs1 := service (cleanup_session in_loop x false bs)) in *.
    assert (Hstuck1 : no_stuck_client bs1).
    { intros sid s client Hl. apply (Hstuck sid). rewrite Hs in Hl.
      destruct (is_protected bs x); [done|].
      apply lookup_delete_Some in Hl as [_ Hl]. done. }
    destruct (IH bs1 Hstuck1) as (IHret & IHdb & IHs & IHc). simpl.
    split; [done|]. split; [by rewrite IHdb|].
    assert (Hprot : ∀ sid, is_protected bs1 sid = is_protected bs sid).
    { intros sid. by apply is_protected_same_store. }
    split; intros sid; [rewrite IHs, Hs|rewrite IHc, Hc]; rewrite Hprot.
    all: by apply sweep_step; intros ->.
Qed.

Lemma elem_of_session_ids (bs : BrowserService) (sid : string) :
  sid ∈ session_ids bs ↔ is_Some (active_sessions bs !! sid).
Proof.
  unfold session_ids. rewrite list_elem_of_fmap. split.
  - intros ([k s] & -> & Hin). apply elem_of_map_to_list in Hin. by exists s.
  - intros [s Hs]. exists (sid, s). split; [done|]. by apply elem_of_map_to_list.
Qed.

(** [cleanup_all_sessions] and [shutdown] clean without [force]. A
    session is protected, as [cleanup_session] checks it, exactly when a
    [db_manager] is attached, its [get_order] returns without raising,
    and the order it returns for the session id has status
    requires_human. When no client hangs, both calls return having left
    in place, untouched, every protected session, and having removed
    every other one: also the session of a requires_human order when no
    store is attached or the lookup raises. A client registered under an
    id that has no session record is not removed either. *)
Theorem cleanup_all_sessions_spares_protected (in_loop : bool) (bs : BrowserService) :
  no_stuck_client bs →
  (∀ sid, is_protected bs sid = true ↔
     ∃ db order, db_manager bs = Some db ∧ reachable db = true
       ∧ get_order (orders db) sid = Some order
       ∧ Database.status order = REQUIRES_HUMAN)
  ∧ shutdown in_loop bs = cleanup_all_sessions in_loop bs
  ∧ (let r := cleanup_all_sessions in_loop bs in
     sw_returned r = true
     ∧ (∀ sid, active_sessions (sw_service r) !! sid =
          if is_protected bs sid then active_sessions bs !! sid else None)
     ∧ (∀ sid, active_clients (sw_service r) !! sid =
          if is_protected bs sid then active_clients bs !! sid
          else match active_sessions bs !! sid with
               | Some _ => None
               | None => active_clients bs !! sid
               end)).
Proof.
  intros Hstuck. split; [intros sid; apply is_protected_spec|].
  split; [reflexivity|].
  destruct (cleanup_each_unforced in_loop (session_ids bs) bs Hstuck)
    as (Hret & _ & Hs & Hc).
  unfold cleanup_all_sessions. split; [done|].
  split; intros sid; [rewrite Hs|rewrite Hc].
  all: destruct (is_protected bs sid); simpl; rewrite ?andb_false_r, ?andb_true_r;
       [done|].
  all: destruct (active_sessions bs !! sid) as [s|] eqn:Hl.
  all: try (rewrite bool_decide_eq_true_2; [done|]; apply elem_of_session_ids;
            by eexists).
  all: rewrite bool_decide_eq_false_2; [done|]; rewrite elem_of_session_ids, Hl;
       by intros [? [=]].
Qed.

(** When no client hangs, [cleanup_expired_sessions] returns having
    removed exactly the sessions that are unprotected and were last
    accessed more than 1800 seconds ago; every other session is left in
    place, unchanged. *)
Theorem cleanup_expired_sessions_removes_the_idle (in_loop : bool) (now : datetime)
    (bs : BrowserService) :
  no_stuck_client bs →
  let r := cleanup_expired_sessions in_loop now bs in
  sw_returned r = true
  ∧ ∀ sid, active_sessions (sw_service r) !! sid =
      match active_sessions bs !! sid with
      | Some s =>
          if negb (is_protected bs sid)
             && bool_decide (1800000000 < now - last_accessed s)
          then None else Some s
      | None => None
      end.
Proof.
  intros Hstuck.
  destruct (cleanup_each_unforced in_loop (expired_sessions now bs) bs Hstuck)
    as (Hret & _ & Hs & _).
  unfold cleanup_expired_sessions. split; [done|]. intros sid. rewrite Hs.
  destruct (active_sessions bs !! sid) as [s|] eqn:Hl.
  - destruct (is_protected bs sid) eqn:Hp; simpl; rewrite ?andb_false_r; [done|].
    rewrite andb_true_r.
    assert (Hiff : sid ∈ expired_sessions now bs ↔ 1800000000 < now - last_accessed s).
    { rewrite elem_of_expired_sessions. split.
      - intros (s' & Hs' & _ & Hidle). rewrite Hl in Hs'. injection Hs' as <-.
        by apply idle_too_long_spec.
      - intros Hidle. exists s. split; [done|]. split; [done|].
        by apply idle_too_long_spec. }
    by rewrite (bool_decide_ext _ _ Hiff).
  - by destruct (_ && _).
Qed.

(** A cleanup that has come back has nothing left to do: the same call
    again returns at once, makes no call on any resource, reports no
    error and leaves the registry as it is. *)
Theorem cleanup_session_twice (in_loop : bool) (sid : string) (force : bool)
    (bs : BrowserService) :
  let r := cleanup_session in_loop sid force bs in
  returned r = true →
  cleanup_session in_loop sid force (service r) = mkCleanup (service r) true [] [] None.
Proof.
  unfold cleanup_session.
  destruct (negb force && is_protected bs sid) eqn:Hguard; simpl.
  - intros _. by rewrite Hguard.
  - unfold locked_cleanup.
    destruct (active_sessions bs !! sid) as [s|] eqn:Hs.
    + destruct (browser_client s) as [client|] eqn:Hc;
        [destruct (stop client) as [[| |]|] eqn:Hst|]; simpl; try done.
      all: intros _; unfold is_protected in *; simpl; rewrite Hguard.
      all: by rewrite lookup_delete_eq, delete_delete_eq.
    + simpl. intros _. unfold is_protected in *. simpl. rewrite Hguard, Hs.
      by rewrite delete_delete_eq.
Qed.

End RegistrySweeps.

Section RegistryLookups.

Import Database BrowserService Registry.

Lemma given_nonempty (x : string) : x ≠ "" → given (Some x) = Some x.
Proof.
  intros Hne. unfold given. apply String.eqb_neq in Hne. by rewrite Hne.
Qed.

(** [register_session] then the lookups. The client is returned by
    [get_client] under its id, other ids answer as before, and no
    session record is created. When the store is reachable and knows the
    order, the order receives the session id and keeps its status, and
    [get_session_by_order] then finds the session from the order id. *)
Theorem register_session_is_found_again (now : datetime) (sid : string)
    (client : BrowserClient) (oid : option string) (bs : BrowserService) :
  let bs' := register_session now sid client oid bs in
  get_client sid bs' = Some client
  ∧ (∀ other, other ≠ sid → get_client other bs' = get_client other bs)
  ∧ active_sessions bs' = active_sessions bs
  ∧ (∀ db o order, db_manager bs = Some db → reachable db = true →
       oid = Some o → o ≠ "" → sid ≠ "" →
       get_order (orders db) o = Some order →
       get_session_by_order o bs' = Some sid
       ∧ ∃ db' order', db_manager bs' = Some db'
           ∧ get_order (orders db') o = Some order'
           ∧ Database.status order' = Database.status order
           ∧ Database.session_id order' = Some sid).
Proof.
  intros bs'. split; [|split; [|split; [done|]]].
  - unfold bs', get_client, register_session. simpl. apply lookup_insert_eq.
  - intros other Hne. unfold bs', get_client, register_session. simpl.
    by apply lookup_insert_ne.
  - intros db o order Hdb Hreach -> Ho Hsid Horder.
    set (row := apply_status now (Database.status order) (only_session_id sid) order).
    set (t' := update_where_id o
                 (apply_status now (Database.status order) (only_session_id sid))
                 (orders db)).
    assert (Hdb' : db_manager bs' = Some (mkDb t' true)).
    { unfold bs', register_session. cbn [db_manager].
      rewrite Hdb, (given_nonempty o Ho).
      unfold record_session, update_order_status. by rewrite Hreach, Horder. }
    assert (Hget : get_order t' o = Some row).
    { unfold t'. rewrite get_order_update_where_id by done.
      by rewrite String.eqb_refl, Horder. }
    split.
    + unfold get_session_by_order, db_get_order. rewrite Hdb'.
      cbn [reachable orders]. rewrite Hget.
      change (Database.session_id row) with (Some sid).
      rewrite (given_nonempty sid Hsid).
      assert (Hclient : is_Some (active_clients bs' !! sid)).
      { exists client. unfold bs', register_session. simpl. apply lookup_insert_eq. }
      by rewrite (bool_decide_eq_true_2 _ Hclient).
    + exists (mkDb t' true), row. done.
Qed.

(** [get_session_by_order] answers with a session id only if the store
    has the order, the order carries that id, and the id is registered
    as a session or as a client; without a store it answers nothing. *)
Theorem get_session_by_order_is_sound (oid sid : string) (bs : BrowserService) :
  (get_session_by_order oid bs = Some sid →
     ∃ db order, db_manager bs = Some db ∧ reachable db = true
       ∧ get_order (orders db) oid = Some order
       ∧ Database.session_id order = Some sid
       ∧ sid ≠ ""
       ∧ (is_Some (active_clients bs !! sid) ∨ is_Some (active_sessions bs !! sid)))
  ∧ (db_manager bs = None → get_session_by_order oid bs = None).
Proof.
  unfold get_session_by_order, db_get_order. split.
  - destruct (db_manager bs) as [db|]; [|discriminate].
    destruct (reachable db) eqn:Hr; [|discriminate].
    destruct (get_order (orders db) oid) as [order|] eqn:Ho; [|discriminate].
    unfold given. destruct (Database.session_id order) as [s|] eqn:Hs; [|discriminate].
    destruct (String.eqb s "") eqn:Hempty; [discriminate|].
    destruct (_ || _) eqn:Hreg; [|discriminate]. intros [= <-].
    exists db, order. repeat (split; [done|]).
    split; [by apply String.eqb_neq|].
    apply orb_true_iff in Hreg as [H|H]; apply bool_decide_eq_true in H; tauto.
  - by intros ->.
Qed.

(** [list_sessions] lists an id exactly when it is registered as a
    session or as a client. A session is listed as active with its own
    order id, creation time, status, browser id, resolution and
    manual-control flag; a client without session record is listed as
    active with status "unknown", no order id, creation time, browser id
    or resolution, and manual control off. An id is listed right after
    [register_session], and no longer after a forced [cleanup_session]
    that returned. *)
Theorem list_sessions_lists_both_maps (bs : BrowserService) (sid : string) :
  (∀ s, active_sessions bs !! sid = Some s →
     ∃ e, list_sessions bs !! sid = Some e
       ∧ e_order_id e = Some (order_id s) ∧ e_active e = true
       ∧ e_created_at e = Some (created_at s)
       ∧ e_status e = BrowserService.status s
       ∧ e_browser_id e = Some (browser_id s)
       ∧ e_resolution e = Some (resolution s)
       ∧ e_manual_control e = manual_control s)
  ∧ (active_sessions bs !! sid = None → is_Some (active_clients bs !! sid) →
     ∃ e, list_sessions bs !! sid = Some e
       ∧ e_order_id e = None ∧ e_active e = true ∧ e_created_at e = None
       ∧ e_status e = "unknown" ∧ e_browser_id e = None
       ∧ e_resolution e = None ∧ e_manual_control e = false)
  ∧ (list_sessions bs !! sid = None ↔
       active_sessions bs !! sid = None ∧ active_clients bs !! sid = None)
  ∧ dom (list_sessions bs) = dom (active_sessions bs) ∪ dom (active_clients bs)
  ∧ (∀ now client oid,
       ∃ e, list_sessions (register_session now sid client oid bs) !! sid = Some e
         ∧ (active_sessions bs !! sid = None → e_status e = "unknown"))
  ∧ (∀ in_loop,
       (∀ s client, active_sessions bs !! sid = Some s →
          browser_client s = Some client → stop client ≠ Some NeverReturns) →
       list_sessions (service (cleanup_session in_loop sid true bs)) !! sid = None).
Proof.
  assert (Hl : ∀ bs', list_sessions bs' !! sid =
            match active_sessions bs' !! sid with
            | Some s => Some (entry_of s)
            | None =>
                match active_clients bs' !! sid with
                | Some _ => Some unknown_entry
                | None => None
                end
            end).
  { intros bs'. unfold list_sessions. rewrite lookup_union, !lookup_fmap.
    destruct (active_sessions bs' !! sid); simpl;
      by destruct (active_clients bs' !! sid). }
  split; [|split; [|split; [|split; [|split]]]].
  - intros s Hs. exists (entry_of s). by rewrite Hl, Hs.
  - intros Hs [client Hc]. exists unknown_entry. by rewrite Hl, Hs, Hc.
  - rewrite Hl. destruct (active_sessions bs !! sid), (active_clients bs !! sid);
      split; try done; by intros [? ?].
  - unfold list_sessions. by rewrite dom_union_L, !dom_fmap_L.
  - intros now client oid. rewrite Hl.
    unfold register_session. cbn [active_sessions active_clients].
    rewrite lookup_insert_eq.
    destruct (active_sessions bs !! sid) as [s|]; [by exists (entry_of s)|].
    by exists unknown_entry.
  - intros in_loop Hstop.
    destruct (cleanup_session_force_removes in_loop sid bs Hstop) as (_ & Hs & Hc).
    by rewrite Hl, Hs, Hc.
Qed.

(** [get_live_view_url] registers and removes nothing: both maps keep
    their ids, the clients and every other session are unchanged. A URL
    it returns is never empty, and for an id known to neither map it
    answers "Session <id> not found" and leaves the registry alone. *)
Theorem get_live_view_url_registers_nothing (now : datetime) (sid : string)
    (expires : Z) (bs : BrowserService) :
  let '(bs', answer) := get_live_view_url now sid expires bs in
  dom (active_sessions bs') = dom (active_sessions bs)
  ∧ active_clients bs' = active_clients bs
  ∧ db_manager bs' = db_manager bs
  ∧ (∀ other, other ≠ sid →
       active_sessions bs' !! other = active_sessions bs !! other)
  ∧ match answer with
    | LiveViewUrl url _ _ _ _ _ _ => url ≠ ""
    | LiveViewError _ _ => True
    end
  ∧ (active_sessions bs !! sid = None → active_clients bs !! sid = None →
       bs' = bs ∧ answer = LiveViewError ("Session " +:+ sid +:+ " not found") None).
Proof.
  assert (Hurl : ∀ u b m r c,
            match live_view_answer sid expires u b m r c with
            | LiveViewUrl url _ _ _ _ _ _ => url ≠ ""
            | LiveViewError _ _ => True
            end).
  { intros u b m r c. unfold live_view_answer. destruct u as [url|]; [|done].
    simpl. destruct (String.eqb url "") eqn:E; simpl; [done|].
    by apply String.eqb_neq. }
  unfold get_live_view_url.
  destruct (active_sessions bs !! sid) as [s|] eqn:Hs.
  - simpl. split; [|split; [done|split; [done|split; [|split; [apply Hurl|done]]]]].
    + apply dom_insert_lookup_L. by eexists.
    + intros other Hne. by apply lookup_insert_ne.
  - destruct (active_clients bs !! sid) as [client|] eqn:Hc.
    + repeat (split; [done|]). split; [apply Hurl|done].
    + done.
Qed.

End RegistryLookups.

(** ** The further properties at work on the sample data *)

Section FurtherInstances.

Import Database Store BrowserService Registry Samples MoreSamples.

Lemma successive_claims_follow_priority_witness :
  ∃ o1 t1 o2 t2,
    get_next_order 100 three_pending = (Some o1, t1)
    ∧ get_next_order 200 t1 = (Some o2, t2)
    ∧ id o1 = "order-1" ∧ id o2 = "order-3"
    ∧ priority_value (priority o2) ≤ priority_value (priority o1).
Proof.
  eexists _, _, _, _.
  split; [reflexivity|]. split; [reflexivity|].
  split; [reflexivity|]. split; [reflexivity|].
  exact (proj1 (successive_claims_follow_priority 100 200 three_pending _ _ _ _
                  eq_refl eq_refl)).
Defined.

Lemma claimed_order_cannot_be_cancelled_witness :
  ∃ o t',
    get_next_order 100 three_pending = (Some o, t')
    ∧ id o = "order-1"
    ∧ cancel_order 150 (id o) t' = (false, t').
Proof.
  eexists _, _.
  split; [reflexivity|]. split; [reflexivity|].
  exact (proj1 (claimed_order_cannot_be_cancelled 100 150 three_pending _ _ eq_refl)).
Defined.

Lemma cancelled_pending_order_is_never_cleaned_up_witness :
  pending_order ∈ [pending_order]
  ∧ id pending_order = "order-9"
  ∧ Database.status pending_order = PENDING
  ∧ completed_at pending_order = None
  ∧ cancel_row 20 pending_order
    ∈ (cleanup_old_orders 9000000000000000 30
         (cancel_order 20 "order-9" [pending_order]).2).2.
Proof.
  assert (Hin : pending_order ∈ [pending_order]) by left.
  split; [exact Hin|]. split; [reflexivity|]. split; [reflexivity|].
  split; [reflexivity|].
  exact (proj2 (proj2 (cancelled_pending_order_is_never_cleaned_up
                         20 9000000000000000 30 "order-9" [pending_order]
                         pending_order Hin eq_refl eq_refl eq_refl))).
Defined.

Lemma stop_empties_the_task_map_witness :
  OrderQueue.steps (OrderQueue.init three_pending 1) busy_queue
  ∧ size (OrderQueue.processing_orders busy_queue) = 1%nat
  ∧ OrderQueue.processing_orders (OrderQueue.stop busy_queue) = ∅.
Proof.
  assert (Hsteps : OrderQueue.steps (OrderQueue.init three_pending 1) busy_queue).
  { eapply OrderQueue.steps_step.
    - eapply OrderQueue.steps_step; [apply OrderQueue.steps_refl|].
      apply OrderQueue.step_start.
    - apply (OrderQueue.step_dispatch 100 started_queue). reflexivity. }
  split; [exact Hsteps|]. split; [reflexivity|].
  exact (proj1 (proj2 (stop_empties_the_task_map three_pending 1 busy_queue Hsteps))).
Defined.

Lemma cancelling_a_dispatched_order_witness :
  OrderQueue.can_dispatch started_queue = true
  ∧ (∃ o db',
       get_next_order 100 (OrderQueue.db_manager started_queue) = (Some o, db')
       ∧ id o = "order-1"
       ∧ (OrderQueue.cancel_order 150 (id o) (OrderQueue.dispatch 100 started_queue)).1.1
         = false).
Proof.
  split; [reflexivity|]. eexists _, _.
  split; [reflexivity|]. split; [reflexivity|].
  pose proof (cancelling_a_dispatched_order 100 150 started_queue _ _
                eq_refl eq_refl) as Hcancel.
  destruct (OrderQueue.cancel_order 150 _ (OrderQueue.dispatch 100 started_queue))
    as [[result q'] events].
  exact (proj1 Hcancel).
Defined.

Lemma mixed_registry_has_no_stuck_client : no_stuck_client mixed_registry.
Proof.
  intros sid s client Hs Hc. unfold mixed_registry in Hs. simpl in Hs.
  apply lookup_insert_Some in Hs as [[_ <-]|[_ Hs]].
  - injection Hc as <-. discriminate.
  - apply lookup_singleton_Some in Hs as [_ <-]. injection Hc as <-. discriminate.
Defined.

Lemma cleanup_all_sessions_spares_protected_witness :
  no_stuck_client mixed_registry
  ∧ is_protected mixed_registry "session-1" = true
  ∧ is_protected mixed_registry "session-2" = false
  ∧ active_sessions (sw_service (cleanup_all_sessions false mixed_registry))
      !! "session-1" = Some (session_with plain_client 0)
  ∧ active_sessions (sw_service (cleanup_all_sessions false mixed_registry))
      !! "session-2" = None.
Proof.
  destruct (cleanup_all_sessions_spares_protected false mixed_registry
              mixed_registry_has_no_stuck_client) as (_ & _ & _ & Hs & _).
  split; [exact mixed_registry_has_no_stuck_client|].
  split; [reflexivity|]. split; [reflexivity|].
  split; [exact (Hs "session-1")|exact (Hs "session-2")].
Defined.

Lemma cleanup_expired_sessions_removes_the_idle_witness :
  no_stuck_client mixed_registry
  ∧ active_sessions
      (sw_service (cleanup_expired_sessions false 2000000000 mixed_registry))
      !! "session-2" = None
  ∧ active_sessions
      (sw_service (cleanup_expired_sessions false 1000000000 mixed_registry))
      !! "session-2" = Some second_session.
Proof.
  split; [exact mixed_registry_has_no_stuck_client|]. split.
  - exact (proj2 (cleanup_expired_sessions_removes_the_idle false 2000000000
                    mixed_registry mixed_registry_has_no_stuck_client) "session-2").
  - exact (proj2 (cleanup_expired_sessions_removes_the_idle false 1000000000
                    mixed_registry mixed_registry_has_no_stuck_client) "session-2").
Defined.

Lemma cleanup_session_twice_witness :
  returned (cleanup_session false "session-2" true mixed_registry) = true
  ∧ active_sessions
      (service (cleanup_session false "session-2" true mixed_registry))
      !! "session-2" = None
  ∧ calls (cleanup_session false "session-2" true
             (service (cleanup_session false "session-2" true mixed_registry))) = [].
Proof.
  split; [reflexivity|]. split; [reflexivity|].
  by rewrite (cleanup_session_twice false "session-2" true mixed_registry eq_refl).
Defined.

End FurtherInstances.

(** ** One task per order *)

Section OneTaskPerOrder.

Import Database Store OrderQueue Scheduler.

Lemma step_tasks_are_claimed (q q' : OrderQueue) :
  tasks_are_claimed q → step q q' → tasks_are_claimed q'.
Proof.
  intros Hinv Hstep.
  destruct Hstep as [now q Hshut|q|oid q|oid q|now oid q|oid q|c q|q|q|q|q].
  - unfold dispatch. destruct (can_dispatch q); [|done].
    destruct (get_next_order now (db_manager q)) as [[o|] db'] eqn:Hnext; [|done].
    apply get_next_order_Some in Hnext as (p & _ & _ & _ & -> & ->).
    intros k row Hk Hrow Hid. simpl in *.
    apply elem_of_update_where_id in Hrow as (r & Hr & ->).
    destruct (String.eqb (id r) (id p)) eqn:E; [done|].
    apply String.eqb_neq in E.
    rewrite lookup_insert_ne in Hk by congruence. by eapply Hinv.
  - destruct (cleanup_completed_tasks_shrinks q) as (_ & _ & Hdb & _ & Hsub).
    intros k row Hk Hrow Hid. rewrite Hdb in Hrow. eapply Hinv; [|done..].
    destruct Hk as [task Hk]. apply Hsub in Hk. by eexists.
  - intros k row Hk Hrow Hid. simpl in *. eapply Hinv; [|done..].
    destruct Hk as [task Hk]. rewrite lookup_alter in Hk.
    destruct (decide (oid = k)) as [->|]; [|by eexists].
    destruct (processing_orders q !! k); [by eexists|discriminate].
  - intros k row Hk Hrow Hid. simpl in *. eapply Hinv; [|done..].
    destruct Hk as [task Hk]. rewrite lookup_alter in Hk.
    destruct (decide (oid = k)) as [->|]; [|by eexists].
    destruct (processing_orders q !! k); [by eexists|discriminate].
  - intros k row Hk Hrow Hid. unfold cancel_order in *.
    assert (Hk' : is_Some (processing_orders q !! k)).
    { destruct (processing_orders q !! oid);
        destruct (Database.cancel_order now oid (db_manager q)); simpl in Hk; [|done].
      destruct Hk as [task Hk]. apply lookup_delete_Some in Hk as [_ Hk]. by eexists. }
    assert (Hrow' : row ∈ (Database.cancel_order now oid (db_manager q)).2).
    { destruct (processing_orders q !! oid);
        by destruct (Database.cancel_order now oid (db_manager q)). }
    unfold Database.cancel_order in Hrow'. simpl in Hrow'.
    apply list_elem_of_fmap in Hrow' as (r & -> & Hr).
    destruct (cancel_matches oid r); [done|]. by eapply Hinv.
  - intros k row Hk Hrow Hid. simpl in *. eapply Hinv; [|done..].
    destruct Hk as [task Hk]. apply lookup_delete_Some in Hk as [_ Hk]. by eexists.
  - exact Hinv.
  - unfold pause. by destruct (QueueStatus_eqb _ _).
  - unfold resume. by destruct (QueueStatus_eqb _ _).
  - unfold start. by destruct (QueueStatus_eqb _ _).
  - unfold stop. destruct (QueueStatus_eqb _ _); [done|].
    intros k row [task Hk]. simpl in Hk. by rewrite lookup_empty in Hk.
Qed.

Lemma run_tasks_are_claimed (q q' : OrderQueue) :
  tasks_are_claimed q → run q q' → tasks_are_claimed q'.
Proof.
  intros Hinv Hrun. destruct Hrun as [q q' Hstep|now oid st fs q Hst].
  - by eapply step_tasks_are_claimed.
  - unfold task_updates, update_order_status.
    destruct (get_order (db_manager q) oid); [|done].
    intros k row Hk Hrow Hid. simpl in *.
    apply elem_of_update_where_id in Hrow as (r & Hr & ->).
    destruct (String.eqb (id r) oid); [done|]. by eapply Hinv.
Qed.

Lemma runs_tasks_are_claimed (db : table) (ceiling : Z) (q : OrderQueue) :
  runs (init db ceiling) q → tasks_are_claimed q.
Proof.
  intros Hruns. remember (init db ceiling) as q0 eqn:Hq0.
  induction Hruns as [|q1 q2 q3 Hruns IH Hrun].
  - subst. intros k row [task Hk]. simpl in Hk. by rewrite lookup_empty in Hk.
  - eapply run_tasks_are_claimed; [by apply IH|done].
Qed.

(** Over the queue's own operations and the status updates of its
    tasks, an order that has a task in the active-task map is never
    PENDING in the store; hence the order [get_next_order] hands to the
    dispatcher never has a task already: no order is dispatched twice
    while its task is tracked. *)
Theorem dispatch_never_doubles_a_task (db : table) (ceiling : Z) (q : OrderQueue) :
  runs (init db ceiling) q →
  (∀ k row, is_Some (processing_orders q !! k) →
     row ∈ db_manager q → id row = k → Database.status row ≠ PENDING)
  ∧ (∀ now o db', get_next_order now (db_manager q) = (Some o, db') →
       processing_orders q !! id o = None).
Proof.
  intros Hruns. pose proof (runs_tasks_are_claimed db ceiling q Hruns) as Hinv.
  split; [exact Hinv|]. intros now o db' Hnext.
  apply get_next_order_Some in Hnext as (p & Hin & Hpend & _ & -> & _). simpl.
  destruct (processing_orders q !! id p) as [task|] eqn:Hk; [|done].
  exfalso. eapply Hinv; [|exact Hin|reflexivity|exact Hpend]. by eexists.
Qed.

Lemma dispatch_never_doubles_a_task_witness :
  runs (init Samples.three_pending 1) Samples.busy_queue
  ∧ (∃ o db',
       get_next_order 200 (db_manager Samples.busy_queue) = (Some o, db')
       ∧ id o = "order-3"
       ∧ processing_orders Samples.busy_queue !! id o = None).
Proof.
  assert (Hruns : runs (init Samples.three_pending 1) Samples.busy_queue).
  { eapply runs_run.
    - eapply runs_run; [apply runs_refl|]. apply run_step. apply step_start.
    - apply run_step. apply (step_dispatch 100 Samples.started_queue). reflexivity. }
  split; [exact Hruns|]. eexists _, _.
  split; [reflexivity|]. split; [reflexivity|].
  exact (proj2 (dispatch_never_doubles_a_task Samples.three_pending 1
                  Samples.busy_queue Hruns) 200 _ _ eq_refl).
Defined.

End OneTaskPerOrder.
